(** * lbrynet.core.server.BlobRequestHandler

    A shallow embedding of the server-side blob request handler
    ([src/lbrynet/core/server/BlobRequestHandler.py]) and the properties
    of its query pipeline, negotiation, download servicing, streaming
    finalisation and cancellation.

    Modelling conventions.
    - The handler object is a record of its instance attributes.
    - Python dicts with string keys are [gmap string Value].
    - A Twisted [Deferred] that has fired is either [Succeeded] or
      [Failed]; a callback chain is the bind of a state-and-failure
      monad, so a callback added with [addCallback] is skipped after a
      failure while the state changes made before it persist.
    - Calls into collaborators (blob manager, blob, wallet, peer,
      strategy, file sender) are recorded, in program order, in an event
      log; the values they answer with come from a [World] record.
    - Python floats are binary64 numbers: rates and amounts are primitive
      floats, and [length * 1.0 * rate / 2**20] is computed with the
      IEEE 754 operations, the integer operands converted with correct
      rounding. *)

From Stdlib Require Import ZArith Lia.
From Stdlib Require PrimFloat SpecFloat FloatOps.
From stdpp Require Import base option list strings gmap.

Local Open Scope Z_scope.
Local Open Scope string_scope.
Local Open Scope list_scope.

Set Warnings "-register-all".

(** ** Python floats *)

Module F64.

Abbreviation float := PrimFloat.float.

(** [float(z)] for a Python int: the nearest binary64 number, ties to
    even; [None] stands for the [OverflowError] Python raises when the
    int is too large for a float. *)
Definition of_int (z : Z) : option float :=
  match SpecFloat.binary_normalize FloatOps.prec FloatOps.emax z 0 false with
  | SpecFloat.S754_infinity _ => None
  | x => Some (FloatOps.SF2Prim x)
  end.

Definition mul : float -> float -> float := PrimFloat.mul.
Definition div : float -> float -> float := PrimFloat.div.

(** The literal [1.0] and the value of [2**20] as a float. *)
Definition one : float := PrimFloat.one.
Definition two_pow_20 : float :=
  Eval vm_compute in
    FloatOps.SF2Prim (SpecFloat.binary_normalize FloatOps.prec FloatOps.emax (2 ^ 20) 0 false).

(** Some rates: 0.5, 0.25 and 0.125. *)
Definition half : float := Eval vm_compute in PrimFloat.div PrimFloat.one PrimFloat.two.
Definition quarter : float := Eval vm_compute in PrimFloat.mul half half.

End F64.

(** ** Python values carried by queries and responses *)

Inductive Value : Type :=
| VNone
| VBool (b : bool)
| VInt (z : Z)
| VNum (x : F64.float)
| VStr (s : string)
| VList (l : list Value)
| VDict (d : gmap string Value).

(** A dict as the handler sees it: the response under construction and
    the query batch. *)
Abbreviation Dict := (gmap string Value).

(** [d.update(r)]: keys of [r] win. *)
Definition dict_update (d r : Dict) : Dict := r ∪ d.

(** [d.get(k, default)] *)
Definition dict_get (d : Dict) (k : string) (default : Value) : Value :=
  match d !! k with
  | Some v => v
  | None => default
  end.

(** ** Collaborators *)

(** A read handle is an opaque file object; it is identified by a
    number. *)
Definition Handle := nat.

(** The blob object returned by [blob_manager.get_blob]: the attributes
    and the answers of the methods the handler calls on it. *)
Module Blob.
Record t : Type := mk {
  blob_hash : string;
  length : Z;
  is_validated : bool;
  open_for_reading : option Handle;   (* None: the blob could not be opened *)
  str : string                        (* str(blob) *)
}.
End Blob.

Record Peer : Type := { host : string }.

(** Modelled from the spec: the [Offer] class of [lbrynet.core.Offer] is
    not part of the sources; an offer wraps the rate proposed by the remote
    peer, taken verbatim from the query payload. *)
Record Offer : Type := { offered : Value }.

(** Modelled from the spec: the reply of [strategy.respond_to_offer]
    (spec section 3, NegotiationOutcome: [{accepted: bool, rate: number}]). *)
Record NegotiationOutcome : Type := { accepted : bool; rate : F64.float }.

(** What can go wrong inside a callback chain. *)
Inductive Failure : Type :=
| AttributeError (attr : string)       (* attribute access on None *)
| AssertionError (msg : string)
| TypeError (msg : string)
| OverflowError (msg : string)
| CollaboratorFailure (msg : string).  (* a collaborator's Deferred failed *)

Inductive Deferred (A : Type) : Type :=
| Succeeded (a : A)
| Failed (f : Failure).
Arguments Succeeded {A} a.
Arguments Failed {A} f.

(** The answers of the collaborators. *)
Record World : Type := {
  (* blob_manager.completed_blobs(requested) *)
  completed_blobs : Value -> Deferred Value;
  (* blob_manager.get_blob(blob_hash, True) *)
  get_blob : Value -> Deferred Blob.t;
  (* blob_manager.add_blob_to_upload_history(blob, host, rate) *)
  add_blob_to_upload_history : string -> string -> F64.float -> Deferred unit;
  (* strategy.respond_to_offer(offer, peer, blobs) *)
  respond_to_offer : Offer -> option Peer -> Value -> NegotiationOutcome;
  (* Negotiate.make_dict_from_offer(reply) *)
  make_dict_from_offer : NegotiationOutcome -> Dict
}.

(** Calls into collaborators, in the order the handler makes them. *)
Inductive Event : Type :=
| EvCompletedBlobs (requested : Value)
| EvRespondToOffer (offer : Offer) (peer : option Peer) (blobs : Value)
| EvGetBlob (blob_hash : Value)
| EvOpenForReading (blob : Blob.t) (result : option Handle)
| EvCloseReadHandle (blob : Blob.t) (handle : option Handle)
| EvAddBlobToUploadHistory (blob : string) (host : string) (rate : F64.float)
| EvAddExpectedPayment (peer : option Peer) (amount : F64.float)
| EvUpdateStats (key : string) (n : Z)
| EvBeginFileTransfer (handle : Handle).

(** ** The handler object *)

Record BlobRequestHandler : Type := mkHandler {
  peer : option Peer;
  blob_data_payment_rate : option F64.float;
  read_handle : option Handle;
  currently_uploading : option Blob.t;
  file_sender : bool;                    (* a FileSender is installed *)
  blob_bytes_uploaded : Z;
  _blobs_requested : Value
}.

Definition query_identifiers : list string :=
  ["blob_data_payment_rate"; "requested_blob"; "requested_blobs"].

(** [query_identifiers[i]] *)
Definition query_identifier (i : nat) : string :=
  nth i query_identifiers "".

(** [BlobRequestHandler.__init__] *)
Definition init : BlobRequestHandler :=
  {| peer := None;
     blob_data_payment_rate := None;
     read_handle := None;
     currently_uploading := None;
     file_sender := false;
     blob_bytes_uploaded := 0;
     _blobs_requested := VList [] |}.

(** The handler together with the log of collaborator calls. *)
Record Sys : Type := mkSys {
  handler : BlobRequestHandler;
  log : list Event
}.

(** ** Callback chains: state and failure *)

Definition M (A : Type) : Type := Sys -> Deferred A * Sys.

Definition ret {A} (a : A) : M A := fun s => (Succeeded a, s).

Definition fail {A} (f : Failure) : M A := fun s => (Failed f, s).

(** [d.addCallback(k)] *)
Definition bind {A B} (m : M A) (k : A -> M B) : M B :=
  fun s =>
    match m s with
    | (Succeeded a, s') => k a s'
    | (Failed f, s') => (Failed f, s')
    end.

(** [d.addBoth(k)]: [k] runs whatever the outcome. *)
Definition add_both {A B} (m : M A) (k : Deferred A -> M B) : M B :=
  fun s => let '(r, s') := m s in k r s'.

#[export] Instance M_ret : MRet M := @ret.
#[export] Instance M_bind : MBind M := fun A B k m => bind m k.

Definition get_self : M BlobRequestHandler := fun s => (Succeeded (handler s), s).

Definition modify_self (f : BlobRequestHandler -> BlobRequestHandler) : M unit :=
  fun s => (Succeeded tt, {| handler := f (handler s); log := log s |}).

(** Record a call into a collaborator. *)
Definition emit (e : Event) : M unit :=
  fun s => (Succeeded tt, {| handler := handler s; log := log s ++ [e] |}).

(** Wait for a collaborator's Deferred. *)
Definition await {A} (d : Deferred A) : M A := fun s => (d, s).

(** Attribute setters *)
Definition set_peer (v : option Peer) (h : BlobRequestHandler) :=
  mkHandler v (blob_data_payment_rate h) (read_handle h) (currently_uploading h)
            (file_sender h) (blob_bytes_uploaded h) (_blobs_requested h).
Definition set_blob_data_payment_rate (v : option F64.float) (h : BlobRequestHandler) :=
  mkHandler (peer h) v (read_handle h) (currently_uploading h)
            (file_sender h) (blob_bytes_uploaded h) (_blobs_requested h).
Definition set_read_handle (v : option Handle) (h : BlobRequestHandler) :=
  mkHandler (peer h) (blob_data_payment_rate h) v (currently_uploading h)
            (file_sender h) (blob_bytes_uploaded h) (_blobs_requested h).
Definition set_currently_uploading (v : option Blob.t) (h : BlobRequestHandler) :=
  mkHandler (peer h) (blob_data_payment_rate h) (read_handle h) v
            (file_sender h) (blob_bytes_uploaded h) (_blobs_requested h).
Definition set_file_sender (v : bool) (h : BlobRequestHandler) :=
  mkHandler (peer h) (blob_data_payment_rate h) (read_handle h) (currently_uploading h)
            v (blob_bytes_uploaded h) (_blobs_requested h).
Definition set_blob_bytes_uploaded (v : Z) (h : BlobRequestHandler) :=
  mkHandler (peer h) (blob_data_payment_rate h) (read_handle h) (currently_uploading h)
            (file_sender h) v (_blobs_requested h).
Definition set_blobs_requested (v : Value) (h : BlobRequestHandler) :=
  mkHandler (peer h) (blob_data_payment_rate h) (read_handle h) (currently_uploading h)
            (file_sender h) (blob_bytes_uploaded h) v.

(** [self.peer.<attr>]: fails when no peer is registered. *)
Definition the_peer (attr : string) : M Peer :=
  self ← get_self;
  match peer self with
  | Some p => ret p
  | None => fail (AttributeError attr)
  end.

(** ** Methods of [BlobRequestHandler] *)

(** [register_with_request_handler]: the two registration calls go to the
    transport and leave the handler as it is. *)
Definition register_with_request_handler (p : Peer) : M unit :=
  modify_self (set_peer (Some p)).

Definition _get_available_blobs (w : World) (requested_blobs : Value) : M Value :=
  emit (EvCompletedBlobs requested_blobs);;
  await (completed_blobs w requested_blobs).

Definition _reply_to_availability (w : World) (request : Dict) (blobs : Value) : M Dict :=
  available_blobs ← _get_available_blobs w blobs;
  mret (dict_update request {["available_blobs" := available_blobs]}).

Definition open_blob_for_reading (blob : Blob.t) (response : Dict) : M (Dict * Blob.t) :=
  let unavailable : M (Dict * Blob.t) :=
    mret (<["error" := VStr "BLOB_UNAVAILABLE"]> response, blob) in
  if Blob.is_validated blob then
    emit (EvOpenForReading blob (Blob.open_for_reading blob));;
    match Blob.open_for_reading blob with
    | Some handle =>
        modify_self (set_currently_uploading (Some blob));;
        modify_self (set_read_handle (Some handle));;
        let response_fields : Dict :=
          <["length" := VInt (Blob.length blob)]>
            (<["blob_hash" := VStr (Blob.blob_hash blob)]> ∅) in
        mret (<["incoming_blob" := VDict response_fields]> response, blob)
    | None => unavailable
    end
  else unavailable.

Definition record_transaction (w : World) (response : Dict) (blob : Blob.t) (r : F64.float)
  : M Dict :=
  p ← the_peer "host";
  emit (EvAddBlobToUploadHistory (Blob.str blob) (host p) r);;
  await (add_blob_to_upload_history w (Blob.str blob) (host p) r);;
  mret response.

Definition _reply_to_send_request (w : World) (response : Dict) (incoming : Value)
  : M Dict :=
  let response_fields : Dict := ∅ in
  let response := <["incoming_blob" := VDict response_fields]> response in
  self ← get_self;
  match blob_data_payment_rate self with
  | None => mret (<["error" := VStr "RATE_UNSET"]> response)
  | Some r =>
      emit (EvGetBlob incoming);;
      blob ← await (get_blob w incoming);
      rb ← open_blob_for_reading blob response;
      record_transaction w rb.1 rb.2 r
  end.

(** [len(v)] is defined for strings, lists and dicts; on None, a bool or
    a number it raises a type error. *)
Definition has_len (v : Value) : bool :=
  match v with
  | VStr _ | VList _ | VDict _ => true
  | VNone | VBool _ | VInt _ | VNum _ => false
  end.

Definition reply_to_offer (w : World) (offer : Offer) (request : Dict) : M Dict :=
  let blobs := dict_get request "available_blobs" (VList []) in
  (* log.info("Offered rate %f/mb for %i blobs", offer.rate, len(blobs)) *)
  (if has_len blobs then mret tt else fail (TypeError "object has no len()"));;
  self ← get_self;
  emit (EvRespondToOffer offer (peer self) blobs);;
  let reply := respond_to_offer w offer (peer self) blobs in
  (if accepted reply
   then modify_self (set_blob_data_payment_rate (Some (rate reply)))
   else mret tt);;
  let r := make_dict_from_offer w reply in
  mret (dict_update request r).

Definition handle_queries (w : World) (queries : Dict) : M Dict :=
  let response : M Dict := mret ∅ in
  let response : M Dict :=
    match queries !! query_identifier 2 with
    | Some requested =>
        modify_self (set_blobs_requested requested);;
        r ← response;
        self ← get_self;
        _reply_to_availability w r (_blobs_requested self)
    | None => response
    end in
  let response : M Dict :=
    match queries !! query_identifier 0 with
    | Some payload =>
        let offer := {| offered := payload |} in
        r ← response;
        reply_to_offer w offer r
    | None => response
    end in
  let response : M Dict :=
    match queries !! query_identifier 1 with
    | Some incoming =>
        r ← response;
        _reply_to_send_request w ∅ incoming
    | None => response
    end in
  response.

(** *** Sending *)

Definition len (data : list Byte.byte) : Z := Z.of_nat (length data).

(** The transform the file sender applies to every chunk it reads. *)
Definition count_bytes (data : list Byte.byte) : M (list Byte.byte) :=
  modify_self (fun h => set_blob_bytes_uploaded (blob_bytes_uploaded h + len data) h);;
  the_peer "update_stats";;
  emit (EvUpdateStats "blob_bytes_uploaded" (len data));;
  mret data.

Definition start_transfer : M unit :=
  modify_self (set_file_sender true);;
  self ← get_self;
  match read_handle self with
  | None => fail (AssertionError "self.read_handle was None when trying to start the transfer")
  | Some handle => emit (EvBeginFileTransfer handle)
  end.

(** The amount registered with the wallet,
    [length * 1.0 * rate / 2**20]; [None] when the length is too large
    to be made a float. *)
Definition expected_payment (blob : Blob.t) (r : F64.float) : option F64.float :=
  match F64.of_int (Blob.length blob) with
  | Some x => Some (F64.div (F64.mul (F64.mul x F64.one) r) F64.two_pow_20)
  | None => None
  end.

Definition set_expected_payment : M unit :=
  self ← get_self;
  match bool_decide (blob_bytes_uploaded self ≠ 0), blob_data_payment_rate self with
  | true, Some r =>
      match currently_uploading self with
      | Some blob =>
          match expected_payment blob r with
          | Some amount =>
              emit (EvAddExpectedPayment (peer self) amount);;
              modify_self (set_blob_bytes_uploaded 0)
          | None => fail (OverflowError "int too large to convert to float")
          end
      | None => fail (AttributeError "length")
      end
  | _, _ => mret tt
  end;;
  the_peer "update_stats";;
  emit (EvUpdateStats "blobs_uploaded" 1).

Definition set_not_uploading {A} (reason : Deferred A) : M unit :=
  self ← get_self;
  match currently_uploading self with
  | Some blob =>
      emit (EvCloseReadHandle blob (read_handle self));;
      modify_self (set_read_handle None);;
      modify_self (set_currently_uploading None)
  | None => mret tt
  end;;
  modify_self (set_file_sender false).

(** The callbacks [_send_file] hangs on the Deferred of
    [beginFileTransfer], run when that Deferred fires with [outcome]. *)
Definition transfer_finished (outcome : Deferred unit) : M unit :=
  add_both (await outcome;; set_expected_payment) set_not_uploading.

(** The file sender feeds the chunks it reads through [count_bytes]. *)
Fixpoint stream (chunks : list (list Byte.byte)) : M unit :=
  match chunks with
  | [] => mret tt
  | data :: rest => count_bytes data;; stream rest
  end.

(** [send_file] with a transfer that delivers [chunks] and then fires
    with [outcome]. *)
Definition send_file (chunks : list (list Byte.byte)) (outcome : Deferred unit) : M Value :=
  start_transfer;;
  stream chunks;;
  transfer_finished outcome;;
  mret VNone.

Definition send_blob_if_requested (chunks : list (list Byte.byte)) (outcome : Deferred unit)
  : M Value :=
  self ← get_self;
  match currently_uploading self with
  | Some _ => send_file chunks outcome
  | None => mret (VBool true)
  end.

Definition cancel_send {E} (err : E) : M E :=
  self ← get_self;
  match currently_uploading self with
  | Some blob => emit (EvCloseReadHandle blob (read_handle self))
  | None => mret tt
  end;;
  modify_self (set_read_handle None);;
  modify_self (set_currently_uploading None);;
  mret err.

(** *** Vocabulary for the download stage *)

(** The metadata [open_blob_for_reading] puts under [incoming_blob]. *)
Definition blob_metadata (blob : Blob.t) : Dict :=
  <["length" := VInt (Blob.length blob)]> (<["blob_hash" := VStr (Blob.blob_hash blob)]> ∅).

(** The handle obtained for a blob: it must be validated, and
    [open_for_reading] must answer a handle. *)
Definition acquired (blob : Blob.t) : option Handle :=
  if Blob.is_validated blob then Blob.open_for_reading blob else None.

(** The response of the download stage once the blob is fetched. *)
Definition serviced_response (blob : Blob.t) (response : Dict) : Dict :=
  match acquired blob with
  | Some _ => <["incoming_blob" := VDict (blob_metadata blob)]> response
  | None => <["error" := VStr "BLOB_UNAVAILABLE"]> (<["incoming_blob" := VDict ∅]> response)
  end.

(** The state the download stage leaves once the blob is fetched and a
    peer is registered. *)
Definition serviced_state (incoming : Value) (blob : Blob.t) (p : Peer) (r : F64.float)
    (s : Sys)
  : Sys :=
  {| handler := match acquired blob with
                | Some handle =>
                    set_read_handle (Some handle)
                      (set_currently_uploading (Some blob) (handler s))
                | None => handler s
                end;
     log := log s ++ [EvGetBlob incoming]
              ++ (if Blob.is_validated blob
                  then [EvOpenForReading blob (Blob.open_for_reading blob)] else [])
              ++ [EvAddBlobToUploadHistory (Blob.str blob) (host p) r] |}.

(** ** Sequences of operations on one handler *)

(** The entry points the transport drives. A transfer is driven by the
    file sender: [OpSendBlobIfRequested] is a whole transfer that runs to
    its end undisturbed, while [OpStartTransfer], [OpCountBytes] and
    [OpTransferFinished] are its separate moments, between which other
    operations (a cancellation, say) may fall. *)
Inductive Op : Type :=
| OpRegister (p : Peer)
| OpHandleQueries (w : World) (queries : Dict)
| OpSendBlobIfRequested (chunks : list (list Byte.byte)) (outcome : Deferred unit)
| OpStartTransfer
| OpCountBytes (data : list Byte.byte)
| OpTransferFinished (outcome : Deferred unit)
| OpCancelSend (err : Failure).

Definition step (op : Op) (s : Sys) : Sys :=
  match op with
  | OpRegister p => (register_with_request_handler p s).2
  | OpHandleQueries w queries => (handle_queries w queries s).2
  | OpSendBlobIfRequested chunks outcome => (send_blob_if_requested chunks outcome s).2
  | OpStartTransfer => (start_transfer s).2
  | OpCountBytes data => (count_bytes data s).2
  | OpTransferFinished outcome => (transfer_finished outcome s).2
  | OpCancelSend err => (cancel_send err s).2
  end.

Definition run (ops : list Op) (s : Sys) : Sys := fold_left (fun s op => step op s) ops s.

(** A freshly built handler, nothing logged yet. *)
Definition fresh : Sys := {| handler := init; log := [] |}.

(** *** Read handles in the log *)

#[export] Instance Blob_eq_dec : EqDecision Blob.t.
Proof. solve_decision. Defined.

Inductive HandleEvent : Type :=
| Opened (blob : Blob.t) (handle : Handle)
| Closed (blob : Blob.t) (handle : option Handle).

(** [open_for_reading] acquires a handle only when it answers one. *)
Definition handle_event (e : Event) : option HandleEvent :=
  match e with
  | EvOpenForReading blob (Some handle) => Some (Opened blob handle)
  | EvCloseReadHandle blob handle => Some (Closed blob handle)
  | _ => None
  end.

Definition handle_trace (l : list Event) : list HandleEvent := omap handle_event l.

(** How many handles a trace opens, and how many it closes. *)
Fixpoint opens (t : list HandleEvent) : nat :=
  match t with
  | [] => 0
  | Opened _ _ :: t' => S (opens t')
  | Closed _ _ :: t' => opens t'
  end.

Fixpoint closes (t : list HandleEvent) : nat :=
  match t with
  | [] => 0
  | Opened _ _ :: t' => closes t'
  | Closed _ _ :: t' => S (closes t')
  end.

(** The handle held at the moment, if any. *)
Definition Held := option (Blob.t * Handle).

Definition held_count (held : Held) : nat :=
  match held with Some _ => 1 | None => 0 end.

(** Opens and closes alternate, starting from [held]: a handle is opened
    only when none is held, and a close releases, on the blob it was
    opened from, exactly the handle that is held. Answers the handle held
    at the end, or [None] when the trace breaks the discipline. *)
Fixpoint well_bracketed (held : Held) (t : list HandleEvent) : option Held :=
  match t with
  | [] => Some held
  | Opened blob handle :: t' =>
      match held with
      | None => well_bracketed (Some (blob, handle)) t'
      | Some _ => None
      end
  | Closed blob handle :: t' =>
      match held with
      | Some (blob', handle') =>
          if decide (blob = blob' ∧ handle = Some handle')
          then well_bracketed None t'
          else None
      | None => None
      end
  end.

(** The transfer session of the handler: the blob being uploaded and its
    read handle. *)
Definition session (h : BlobRequestHandler) : Held :=
  match currently_uploading h, read_handle h with
  | Some blob, Some handle => Some (blob, handle)
  | _, _ => None
  end.

Definition idle (s : Sys) : bool :=
  match currently_uploading (handler s) with Some _ => false | None => true end.

Definition requests_download (op : Op) : bool :=
  match op with
  | OpHandleQueries _ queries => bool_decide (is_Some (queries !! query_identifier 1))
  | _ => false
  end.

(** The transport asks for one blob at a time: along the run, a query
    batch with a download request arrives only when no session is
    active. *)
Fixpoint one_at_a_time (ops : list Op) (s : Sys) : bool :=
  match ops with
  | [] => true
  | op :: ops' =>
      (if requests_download op then idle s else true) && one_at_a_time ops' (step op s)
  end.

(** *** Relating the state before and after *)

(** Every run of [m] takes a state to one related to it by [R]. *)
Definition respects (R : relation Sys) {A} (m : M A) : Prop :=
  ∀ s, R s (m s).2.

(** Every run of [m] keeps [P]. *)
Definition preserves (P : Sys -> Prop) {A} (m : M A) : Prop :=
  ∀ s, P s -> P (m s).2.

(** The agreed rate is left alone. *)
Definition same_rate (s s' : Sys) : Prop :=
  blob_data_payment_rate (handler s') = blob_data_payment_rate (handler s).

(** The agreed rate is left alone or becomes the rate of an accepted
    reply. *)
Definition rate_evolves (s s' : Sys) : Prop :=
  same_rate s s' ∨
  ∃ reply, accepted reply = true ∧
           blob_data_payment_rate (handler s') = Some (rate reply).

(** Neither the session nor the opens and closes in the log change. *)
Definition same_handles (s s' : Sys) : Prop :=
  currently_uploading (handler s') = currently_uploading (handler s) ∧
  read_handle (handler s') = read_handle (handler s) ∧
  handle_trace (log s') = handle_trace (log s).

(** The log opens and closes handles in turn and ends holding exactly
    the session's handle; a blob being uploaded always has its handle. *)
Definition handles_accounted (s : Sys) : Prop :=
  well_bracketed None (handle_trace (log s)) = Some (session (handler s)) ∧
  (session (handler s) = None -> currently_uploading (handler s) = None).

(** An attribute update that leaves the agreed rate alone. *)
Definition keeps_rate (f : BlobRequestHandler -> BlobRequestHandler) : Prop :=
  ∀ h, blob_data_payment_rate (f h) = blob_data_payment_rate h.

(** An attribute update that leaves the session alone. *)
Definition keeps_session (f : BlobRequestHandler -> BlobRequestHandler) : Prop :=
  ∀ h, currently_uploading (f h) = currently_uploading h ∧
       read_handle (f h) = read_handle h.

(** A collaborator call that neither opens nor closes a handle. *)
Definition no_handle_event (e : Event) : Prop := handle_event e = None.

(** The pipeline of [handle_queries] up to, and without, the download
    stage: the value of [response] after the first two [if]s. *)
Definition earlier_stages (w : World) (queries : Dict) : M Dict :=
  let response : M Dict := mret ∅ in
  let response : M Dict :=
    match queries !! query_identifier 2 with
    | Some requested =>
        modify_self (set_blobs_requested requested);;
        r ← response;
        self ← get_self;
        _reply_to_availability w r (_blobs_requested self)
    | None => response
    end in
  let response : M Dict :=
    match queries !! query_identifier 0 with
    | Some payload =>
        let offer := {| offered := payload |} in
        r ← response;
        reply_to_offer w offer r
    | None => response
    end in
  response.

(** The pipeline of [handle_queries] after its first [if]: the
    availability stage, when the batch asks for it. *)
Definition availability_stage (w : World) (queries : Dict) : M Dict :=
  let response : M Dict := mret ∅ in
  match queries !! query_identifier 2 with
  | Some requested =>
      modify_self (set_blobs_requested requested);;
      r ← response;
      self ← get_self;
      _reply_to_availability w r (_blobs_requested self)
  | None => response
  end.

(** The reply the strategy gives in the course of a query batch handled
    from state [s], if the batch carries an offer and the pipeline gets as
    far as consulting the strategy. *)
Definition offer_outcome (w : World) (queries : Dict) (s : Sys)
  : option NegotiationOutcome :=
  match queries !! query_identifier 0 with
  | Some payload =>
      match availability_stage w queries s with
      | (Succeeded r, s1) =>
          let blobs := dict_get r "available_blobs" (VList []) in
          if has_len blobs
          then Some (respond_to_offer w {| offered := payload |} (peer (handler s1)) blobs)
          else None
      | (Failed _, _) => None
      end
  | None => None
  end.

(** The operation, run from [s], has the strategy accept an offer. *)
Definition accepts_offer (op : Op) (s : Sys) : bool :=
  match op with
  | OpHandleQueries w queries =>
      match offer_outcome w queries s with
      | Some reply => accepted reply
      | None => false
      end
  | _ => false
  end.

(** Along the run of [ops] from [s], the strategy accepts no offer
    (it may be consulted, and may accept other offers at other times). *)
Fixpoint no_offer_accepted (ops : list Op) (s : Sys) : bool :=
  match ops with
  | [] => true
  | op :: ops' => negb (accepts_offer op s) && no_offer_accepted ops' (step op s)
  end.

(** ** A scenario: one peer, three blobs *)

Module Scenario.

(** A validated blob of one mebibyte. *)
Definition blob_x : Blob.t :=
  {| Blob.blob_hash := "X"; Blob.length := 1048576; Blob.is_validated := true;
     Blob.open_for_reading := Some 7%nat; Blob.str := "X" |}.

(** A blob that is not validated. *)
Definition blob_u : Blob.t :=
  {| Blob.blob_hash := "U"; Blob.length := 10; Blob.is_validated := false;
     Blob.open_for_reading := None; Blob.str := "U" |}.

(** Another validated blob. *)
Definition blob_y : Blob.t :=
  {| Blob.blob_hash := "Y"; Blob.length := 2097152; Blob.is_validated := true;
     Blob.open_for_reading := Some 8%nat; Blob.str := "Y" |}.

Definition the_peer : Peer := {| host := "10.0.0.1" |}.

(** Storage holds X and Y validated; the strategy accepts every offer at
    0.5 per megabyte. *)
Definition world : World :=
  {| completed_blobs := fun _ => Succeeded (VList [VStr "X"]);
     get_blob := fun v =>
       match v with
       | VStr "X" => Succeeded blob_x
       | VStr "Y" => Succeeded blob_y
       | _ => Succeeded blob_u
       end;
     add_blob_to_upload_history := fun _ _ _ => Succeeded tt;
     respond_to_offer := fun _ _ _ => {| accepted := true; rate := F64.half |};
     make_dict_from_offer := fun _ => {["blob_data_payment_rate" := VStr "RATE_ACCEPTED"]} |}.

(** The same storage with a strategy that declines. *)
Definition world_declining : World :=
  {| completed_blobs := completed_blobs world;
     get_blob := get_blob world;
     add_blob_to_upload_history := add_blob_to_upload_history world;
     respond_to_offer := fun _ _ _ => {| accepted := false; rate := F64.quarter |};
     make_dict_from_offer := fun _ => {["blob_data_payment_rate" := VStr "RATE_TOO_LOW"]} |}.

(** A registered handler before any negotiation. *)
Definition registered : Sys := step (OpRegister the_peer) fresh.

Definition offer_query : Dict := {["blob_data_payment_rate" := VNum F64.half]}.
Definition download_x : Dict := {["requested_blob" := VStr "X"]}.
Definition download_y : Dict := {["requested_blob" := VStr "Y"]}.
Definition download_u : Dict := {["requested_blob" := VStr "U"]}.

(** All three keys in one batch. *)
Definition full_batch : Dict :=
  <["requested_blobs" := VList [VStr "X"; VStr "Y"]]>
    (<["blob_data_payment_rate" := VNum F64.half]> download_x).

(** A registered handler with the rate 0.5 agreed. *)
Definition negotiated : Sys := step (OpHandleQueries world offer_query) registered.

(** ... and with blob X open for upload. *)
Definition uploading : Sys := step (OpHandleQueries world download_x) negotiated.

Definition chunk : list Byte.byte := [Byte.x00; Byte.x01; Byte.x02].

(** ... after the file sender has delivered one chunk. *)
Definition streaming : Sys := step (OpCountBytes chunk) (step OpStartTransfer uploading).

(** The moment the file sender has delivered all of blob X. *)
Definition streamed : Sys :=
  {| handler := set_blob_bytes_uploaded 1048576 (handler streaming);
     log := log streaming |}.

Definition cut_off : Failure :=
  CollaboratorFailure "Consumer asked us to stop producing".

(** One blob at a time: X is requested and its transfer cancelled
    half-way, the cut-off transfer then reports its failure, and only
    then Y is requested and sent in full. *)
Definition orderly : list Op :=
  [OpRegister the_peer;
   OpHandleQueries world offer_query;
   OpHandleQueries world download_x;
   OpStartTransfer;
   OpCountBytes chunk;
   OpCancelSend cut_off;
   OpTransferFinished (Failed cut_off);
   OpHandleQueries world download_y;
   OpSendBlobIfRequested [chunk] (Succeeded tt)].

(** Y is requested while the session for X is still open. *)
Definition hasty : list Op :=
  [OpRegister the_peer;
   OpHandleQueries world offer_query;
   OpHandleQueries world download_x;
   OpHandleQueries world download_y;
   OpSendBlobIfRequested [chunk] (Succeeded tt);
   OpCancelSend cut_off].

End Scenario.

(** ** The factory and the remaining vocabulary *)

(** [BlobRequestHandlerFactory]: it keeps the four collaborators and
    passes them to every handler it builds. The collaborators answer
    through [World], so a built handler is the state [__init__] leaves. *)
Module BlobRequestHandlerFactory.

Definition build_query_handler : BlobRequestHandler := init.

Definition get_primary_query_identifier : string := "requested_blob".

Definition get_description : string := "Blob Uploader - uploads blobs".

End BlobRequestHandlerFactory.

(** [_add_to_response]: the body is a bare [return response]. *)
Definition _add_to_response (response to_add : Dict) : Dict := response.

(** The bytes in a sequence of chunks. *)
Definition total_len (chunks : list (list Byte.byte)) : Z :=
  foldr (fun data n => len data + n) 0 chunks.

(** The peer statistics [count_bytes] reports for a sequence of chunks. *)
Definition stats_events (chunks : list (list Byte.byte)) : list Event :=
  map (fun data => EvUpdateStats "blob_bytes_uploaded" (len data)) chunks.

(** The blob being uploaded and its read handle are set together. *)
Definition session_consistent (h : BlobRequestHandler) : Prop :=
  currently_uploading h = None ↔ read_handle h = None.

(** The byte counter is left alone. *)
Definition same_counter (s s' : Sys) : Prop :=
  blob_bytes_uploaded (handler s') = blob_bytes_uploaded (handler s).

(** An attribute update that leaves the byte counter alone. *)
Definition keeps_counter (f : BlobRequestHandler -> BlobRequestHandler) : Prop :=
  ∀ h, blob_bytes_uploaded (f h) = blob_bytes_uploaded h.

(** The byte counter does not become negative. *)
Definition counter_stays_nonneg (s s' : Sys) : Prop :=
  0 <= blob_bytes_uploaded (handler s) -> 0 <= blob_bytes_uploaded (handler s').

(** No handle is opened. *)
Definition same_opens (s s' : Sys) : Prop :=
  opens (handle_trace (log s')) = opens (handle_trace (log s)).

(** ** A scenario with failing collaborators *)

Module Outage.

Definition storage_down : Failure := CollaboratorFailure "blob storage unavailable".

Definition history_down : Failure := CollaboratorFailure "upload history unavailable".

(** The blob manager cannot list completed blobs. *)
Definition world_without_listing : World :=
  {| completed_blobs := fun _ => Failed storage_down;
     get_blob := get_blob Scenario.world;
     add_blob_to_upload_history := add_blob_to_upload_history Scenario.world;
     respond_to_offer := respond_to_offer Scenario.world;
     make_dict_from_offer := make_dict_from_offer Scenario.world |}.

(** The blob manager cannot append to the upload history. *)
Definition world_without_history : World :=
  {| completed_blobs := completed_blobs Scenario.world;
     get_blob := get_blob Scenario.world;
     add_blob_to_upload_history := fun _ _ _ => Failed history_down;
     respond_to_offer := respond_to_offer Scenario.world;
     make_dict_from_offer := make_dict_from_offer Scenario.world |}.

(** A handler on which an offer was accepted before any peer was
    registered. *)
Definition unregistered : Sys :=
  step (OpHandleQueries Scenario.world Scenario.offer_query) fresh.

(** A blob is set for upload but its read handle is missing. *)
Definition handle_lost : Sys :=
  {| handler := set_read_handle None (handler Scenario.uploading);
     log := log Scenario.uploading |}.

End Outage.

(** * Properties *)

(** ** Running a callback chain *)

(** Unfold a chain down to its effect on the state. *)
Ltac chain :=
  unfold the_peer in *;
  unfold mbind, M_bind, mret, M_ret, bind, ret, fail, get_self, modify_self,
    emit, await, add_both in *; cbn in *.

(** ** Polling with nothing to send *)

(** C9. With no transfer session ([currently_uploading] is None),
    [send_blob_if_requested] answers an already-succeeded Deferred
    carrying True; nothing is sent, nothing is logged, and the handler
    is left exactly as it was. *)
Theorem send_blob_if_requested_idle chunks outcome (s : Sys) :
  currently_uploading (handler s) = None ->
  send_blob_if_requested chunks outcome s = (Succeeded (VBool true), s).
Proof.
  intros Hidle. unfold send_blob_if_requested. chain. now rewrite Hidle.
Qed.

Lemma send_blob_if_requested_idle_witness :
  send_blob_if_requested [Scenario.chunk] (Succeeded tt) Scenario.negotiated
  = (Succeeded (VBool true), Scenario.negotiated).
Proof. apply send_blob_if_requested_idle. reflexivity. Defined.

(** ** Cancellation *)

Lemma cancel_send_eq {E} (err : E) (s : Sys) :
  cancel_send err s =
  (Succeeded err,
   {| handler := set_currently_uploading None (set_read_handle None (handler s));
      log := match currently_uploading (handler s) with
             | Some blob => log s ++ [EvCloseReadHandle blob (read_handle (handler s))]
             | None => log s
             end |}).
Proof.
  unfold cancel_send. chain. now destruct (currently_uploading (handler s)).
Qed.

(** C8. [cancel_send err] answers [err] itself, for every [err] and every
    handler state. With a session, the read handle is closed on the blob
    being uploaded (one [close_read_handle] call) and the session is
    cleared; without one, no collaborator is called. A second call finds
    no session and changes nothing. *)
Theorem cancel_send_pass_through {E} (err err' : E) (s : Sys) :
  let s' := (cancel_send err s).2 in
  (cancel_send err s).1 = Succeeded err ∧
  log s' = match currently_uploading (handler s) with
           | Some blob => log s ++ [EvCloseReadHandle blob (read_handle (handler s))]
           | None => log s
           end ∧
  currently_uploading (handler s') = None ∧
  read_handle (handler s') = None ∧
  cancel_send err' s' = (Succeeded err', s').
Proof.
  cbn zeta. rewrite !cancel_send_eq. cbn. repeat split.
Qed.

(** ** Download servicing *)

Lemma open_blob_for_reading_eq blob (response : Dict) (s : Sys) :
  open_blob_for_reading blob response s =
  if Blob.is_validated blob then
    match Blob.open_for_reading blob with
    | Some handle =>
        (Succeeded (<["incoming_blob" := VDict (blob_metadata blob)]> response, blob),
         {| handler := set_read_handle (Some handle)
                         (set_currently_uploading (Some blob) (handler s));
            log := log s ++ [EvOpenForReading blob (Some handle)] |})
    | None =>
        (Succeeded (<["error" := VStr "BLOB_UNAVAILABLE"]> response, blob),
         {| handler := handler s; log := log s ++ [EvOpenForReading blob None] |})
    end
  else (Succeeded (<["error" := VStr "BLOB_UNAVAILABLE"]> response, blob), s).
Proof.
  unfold open_blob_for_reading. destruct (Blob.is_validated blob); [|reflexivity].
  chain. now destruct (Blob.open_for_reading blob).
Qed.

Lemma reply_to_send_request_unset w (response : Dict) incoming (s : Sys) :
  blob_data_payment_rate (handler s) = None ->
  _reply_to_send_request w response incoming s =
  (Succeeded (<["error" := VStr "RATE_UNSET"]> (<["incoming_blob" := VDict ∅]> response)), s).
Proof.
  intros Hrate. unfold _reply_to_send_request. chain. now rewrite Hrate.
Qed.

Lemma reply_to_send_request_serviced w (response : Dict) incoming (s : Sys) r blob p :
  blob_data_payment_rate (handler s) = Some r ->
  get_blob w incoming = Succeeded blob ->
  peer (handler s) = Some p ->
  _reply_to_send_request w response incoming s =
  (match add_blob_to_upload_history w (Blob.str blob) (host p) r with
   | Succeeded _ => Succeeded (serviced_response blob response)
   | Failed f => Failed f
   end,
   serviced_state incoming blob p r s).
Proof.
  intros Hrate Hblob Hpeer.
  unfold _reply_to_send_request, record_transaction, serviced_response,
    serviced_state, acquired.
  chain. rewrite Hrate, Hblob. rewrite open_blob_for_reading_eq.
  destruct (Blob.is_validated blob); [destruct (Blob.open_for_reading blob)|];
    chain; rewrite Hpeer; cbn; rewrite <- ?app_assoc; cbn;
    rewrite ?insert_insert_eq;
    now destruct (add_blob_to_upload_history w (Blob.str blob) (host p) r).
Qed.

Lemma blob_metadata_nonempty blob : blob_metadata blob ≠ ∅.
Proof. unfold blob_metadata. apply insert_non_empty. Qed.

(** C3. A download request met while no rate is agreed
    ([blob_data_payment_rate] is None) answers at once with
    [error = RATE_UNSET]. The handler is untouched (no session, no read
    handle) and the log of collaborator calls is untouched (no
    [get_blob], no [open_for_reading], no upload-history record). *)
Theorem download_without_rate w (response : Dict) incoming (s : Sys) :
  blob_data_payment_rate (handler s) = None ->
  ∃ reply : Dict,
    _reply_to_send_request w response incoming s = (Succeeded reply, s) ∧
    reply !! "error" = Some (VStr "RATE_UNSET").
Proof.
  intros Hrate. eexists. split.
  - now apply reply_to_send_request_unset.
  - apply lookup_insert_eq.
Qed.

Lemma download_without_rate_witness :
  ∃ reply : Dict,
    _reply_to_send_request Scenario.world ∅ (VStr "X") Scenario.registered
    = (Succeeded reply, Scenario.registered) ∧
    reply !! "error" = Some (VStr "RATE_UNSET").
Proof. apply download_without_rate. reflexivity. Defined.

(** C6. With a rate agreed, the blob fetched and the history record
    accepted, the response carries [incoming_blob = {blob_hash, length}]
    exactly when the blob is validated and a read handle was acquired; in
    that case the session holds that blob and handle. Otherwise the
    response carries [error = BLOB_UNAVAILABLE], [incoming_blob] is the
    empty dict (no metadata), and the handler is as it was: no session is
    created. *)
Theorem incoming_blob_iff_servable w (response : Dict) incoming (s : Sys) r blob p :
  blob_data_payment_rate (handler s) = Some r ->
  get_blob w incoming = Succeeded blob ->
  peer (handler s) = Some p ->
  add_blob_to_upload_history w (Blob.str blob) (host p) r = Succeeded tt ->
  ∃ (reply : Dict) (s' : Sys),
    _reply_to_send_request w response incoming s = (Succeeded reply, s') ∧
    (reply !! "incoming_blob" = Some (VDict (blob_metadata blob))
     ↔ is_Some (acquired blob)) ∧
    match acquired blob with
    | Some handle =>
        currently_uploading (handler s') = Some blob ∧
        read_handle (handler s') = Some handle ∧
        reply !! "error" = response !! "error"
    | None =>
        reply !! "error" = Some (VStr "BLOB_UNAVAILABLE") ∧
        reply !! "incoming_blob" = Some (VDict ∅) ∧
        handler s' = handler s
    end.
Proof.
  intros Hrate Hblob Hpeer Hhist.
  rewrite (reply_to_send_request_serviced _ _ _ _ _ _ _ Hrate Hblob Hpeer), Hhist.
  eexists _, _. split; [reflexivity|].
  unfold serviced_response, serviced_state. cbn.
  destruct (acquired blob) as [handle|].
  - rewrite lookup_insert_eq. repeat split; eauto.
    now apply lookup_insert_ne.
  - rewrite lookup_insert_ne, lookup_insert_eq by discriminate.
    repeat split.
    + intros Habs. exfalso. apply (blob_metadata_nonempty blob). congruence.
    + intros [? [=]].
    + apply lookup_insert_eq.
Qed.

Lemma incoming_blob_iff_servable_witness :
  ∃ (reply : Dict) (s' : Sys),
    _reply_to_send_request Scenario.world ∅ (VStr "X") Scenario.negotiated
    = (Succeeded reply, s') ∧
    (reply !! "incoming_blob" = Some (VDict (blob_metadata Scenario.blob_x))
     ↔ is_Some (acquired Scenario.blob_x)) ∧
    match acquired Scenario.blob_x with
    | Some handle =>
        currently_uploading (handler s') = Some Scenario.blob_x ∧
        read_handle (handler s') = Some handle ∧
        reply !! "error" = (∅ : Dict) !! "error"
    | None =>
        reply !! "error" = Some (VStr "BLOB_UNAVAILABLE") ∧
        reply !! "incoming_blob" = Some (VDict ∅) ∧
        handler s' = handler Scenario.negotiated
    end.
Proof.
  apply (incoming_blob_iff_servable Scenario.world ∅ (VStr "X") Scenario.negotiated
           F64.half Scenario.blob_x Scenario.the_peer); reflexivity.
Defined.

(** C1, as the code has it. With a rate agreed, the blob fetched and a
    peer registered, the download stage calls
    [add_blob_to_upload_history(str(blob), peer.host, rate)] exactly once,
    as its last collaborator call, whatever [open_blob_for_reading] did:
    the record is written on the BLOB_UNAVAILABLE path as well as when a
    session was created. *)
Theorem billing_record_always w (response : Dict) incoming (s : Sys) r blob p :
  blob_data_payment_rate (handler s) = Some r ->
  get_blob w incoming = Succeeded blob ->
  peer (handler s) = Some p ->
  log (_reply_to_send_request w response incoming s).2 =
  log s ++ [EvGetBlob incoming]
        ++ (if Blob.is_validated blob
            then [EvOpenForReading blob (Blob.open_for_reading blob)] else [])
        ++ [EvAddBlobToUploadHistory (Blob.str blob) (host p) r].
Proof.
  intros Hrate Hblob Hpeer.
  now rewrite (reply_to_send_request_serviced _ _ _ _ _ _ _ Hrate Hblob Hpeer).
Qed.

Lemma billing_record_always_witness :
  log (_reply_to_send_request Scenario.world ∅ (VStr "X") Scenario.negotiated).2 =
  log Scenario.negotiated ++ [EvGetBlob (VStr "X")]
        ++ (if Blob.is_validated Scenario.blob_x
            then [EvOpenForReading Scenario.blob_x (Blob.open_for_reading Scenario.blob_x)]
            else [])
        ++ [EvAddBlobToUploadHistory (Blob.str Scenario.blob_x) (host Scenario.the_peer) F64.half].
Proof.
  apply (billing_record_always Scenario.world ∅ (VStr "X") Scenario.negotiated
           F64.half Scenario.blob_x Scenario.the_peer); reflexivity.
Defined.

(** C1, as stated, fails: blob U is not validated, the response is
    [error = BLOB_UNAVAILABLE] and no session exists afterwards, yet the
    upload-history record for U has been written. *)
Lemma billing_record_without_session :
  let out := _reply_to_send_request Scenario.world ∅ (VStr "U") Scenario.negotiated in
  out.1 = Succeeded (<["error" := VStr "BLOB_UNAVAILABLE"]> {["incoming_blob" := VDict ∅]}) ∧
  session (handler out.2) = None ∧
  log out.2 = log Scenario.negotiated
                ++ [EvGetBlob (VStr "U"); EvAddBlobToUploadHistory "U" "10.0.0.1" F64.half].
Proof. vm_compute. repeat split. Qed.

(** ** The query pipeline *)

(** C4, at a batch with all three keys: the availability and negotiation
    stages run, in that order, before the download stage (the log shows
    their collaborator calls), but the download stage is handed a fresh
    empty dict, so the final response holds [incoming_blob] alone; the
    same batch without the download request keeps [available_blobs] and
    the negotiation result. *)
Theorem download_stage_drops_earlier_fields :
  let out := handle_queries Scenario.world Scenario.full_batch Scenario.registered in
  out.1 = Succeeded {["incoming_blob" := VDict (blob_metadata Scenario.blob_x)]} ∧
  log out.2 =
    [EvCompletedBlobs (VList [VStr "X"; VStr "Y"]);
     EvRespondToOffer {| offered := VNum F64.half |} (Some Scenario.the_peer) (VList [VStr "X"]);
     EvGetBlob (VStr "X");
     EvOpenForReading Scenario.blob_x (Some 7%nat);
     EvAddBlobToUploadHistory "X" "10.0.0.1" F64.half] ∧
  (handle_queries Scenario.world (delete "requested_blob" Scenario.full_batch)
     Scenario.registered).1 =
    Succeeded (<["available_blobs" := VList [VStr "X"]]>
                 {["blob_data_payment_rate" := VStr "RATE_ACCEPTED"]}).
Proof. vm_compute. repeat split. Qed.

(** ** Finalising a transfer *)

Lemma set_not_uploading_eq {A} (reason : Deferred A) (s : Sys) :
  set_not_uploading reason s =
  (Succeeded tt,
   match currently_uploading (handler s) with
   | Some blob =>
       {| handler := set_file_sender false
                       (set_currently_uploading None (set_read_handle None (handler s)));
          log := log s ++ [EvCloseReadHandle blob (read_handle (handler s))] |}
   | None => {| handler := set_file_sender false (handler s); log := log s |}
   end).
Proof.
  unfold set_not_uploading. chain. now destruct (currently_uploading (handler s)).
Qed.

Lemma transfer_finished_failed f (s : Sys) :
  transfer_finished (Failed f) s = set_not_uploading (@Failed unit f) s.
Proof. reflexivity. Qed.

Lemma set_expected_payment_billed (s : Sys) r blob p amount :
  blob_bytes_uploaded (handler s) ≠ 0 ->
  blob_data_payment_rate (handler s) = Some r ->
  currently_uploading (handler s) = Some blob ->
  peer (handler s) = Some p ->
  expected_payment blob r = Some amount ->
  set_expected_payment s =
  (Succeeded tt,
   {| handler := set_blob_bytes_uploaded 0 (handler s);
      log := log s ++ [EvAddExpectedPayment (Some p) amount;
                       EvUpdateStats "blobs_uploaded" 1] |}).
Proof.
  intros Hn Hrate Hblob Hpeer Hamount. unfold set_expected_payment. chain.
  rewrite bool_decide_true, Hrate, Hblob, Hamount by assumption. cbn.
  rewrite !Hpeer. cbn. now rewrite <- app_assoc.
Qed.

Lemma transfer_finished_billed (s : Sys) r blob p amount :
  blob_bytes_uploaded (handler s) ≠ 0 ->
  blob_data_payment_rate (handler s) = Some r ->
  currently_uploading (handler s) = Some blob ->
  peer (handler s) = Some p ->
  expected_payment blob r = Some amount ->
  transfer_finished (Succeeded tt) s =
  (Succeeded tt,
   {| handler := set_file_sender false
                   (set_currently_uploading None
                      (set_read_handle None (set_blob_bytes_uploaded 0 (handler s))));
      log := log s ++ [EvAddExpectedPayment (Some p) amount;
                       EvUpdateStats "blobs_uploaded" 1;
                       EvCloseReadHandle blob (read_handle (handler s))] |}).
Proof.
  intros Hn Hrate Hblob Hpeer Hamount. unfold transfer_finished, add_both.
  assert (E : (await (Succeeded tt);; set_expected_payment) s = set_expected_payment s)
    by reflexivity.
  rewrite E, (set_expected_payment_billed s r blob p amount) by assumption.
  rewrite set_not_uploading_eq. cbn. rewrite Hblob. cbn. now rewrite <- app_assoc.
Qed.

(** C2, as the code has it. When the transfer ends successfully with a
    non-zero byte counter, a rate [r] agreed, blob [blob] being uploaded,
    a peer registered and a length that converts to a float, the
    finalisation registers with the wallet the credit
    [blob.length * 1.0 * r / 2**20], computed in binary64, counts one
    uploaded blob, closes the read handle and clears the session; the
    byte counter is 0 afterwards. The credit is [N * 1.0 * r / 2**20] for
    the byte counter [N] whenever [N] is the length of the blob. When the
    transfer ends in a failure, the handle is closed and the session
    cleared in the same way, but no credit is registered and the byte
    counter is left as it is. *)
Theorem expected_payment_on_success (s : Sys) r blob p f amount :
  blob_bytes_uploaded (handler s) ≠ 0 ->
  blob_data_payment_rate (handler s) = Some r ->
  currently_uploading (handler s) = Some blob ->
  peer (handler s) = Some p ->
  expected_payment blob r = Some amount ->
  let done := transfer_finished (Succeeded tt) s in
  let failed := transfer_finished (Failed f) s in
  done =
    (Succeeded tt,
     {| handler := set_file_sender false
                     (set_currently_uploading None
                        (set_read_handle None (set_blob_bytes_uploaded 0 (handler s))));
        log := log s ++ [EvAddExpectedPayment (Some p) amount;
                         EvUpdateStats "blobs_uploaded" 1;
                         EvCloseReadHandle blob (read_handle (handler s))] |}) ∧
  blob_bytes_uploaded (handler done.2) = 0 ∧
  session (handler done.2) = None ∧
  (∃ x, F64.of_int (Blob.length blob) = Some x ∧
        amount = F64.div (F64.mul (F64.mul x F64.one) r) F64.two_pow_20) ∧
  (blob_bytes_uploaded (handler s) = Blob.length blob ->
   ∃ n, F64.of_int (blob_bytes_uploaded (handler s)) = Some n ∧
        amount = F64.div (F64.mul (F64.mul n F64.one) r) F64.two_pow_20) ∧
  failed =
    (Succeeded tt,
     {| handler := set_file_sender false
                     (set_currently_uploading None (set_read_handle None (handler s)));
        log := log s ++ [EvCloseReadHandle blob (read_handle (handler s))] |}) ∧
  session (handler failed.2) = None.
Proof.
  intros Hn Hrate Hblob Hpeer Hamount done failed. subst done failed.
  rewrite transfer_finished_failed, set_not_uploading_eq, Hblob.
  rewrite (transfer_finished_billed s r blob p amount) by assumption.
  assert (Hformula : ∃ x, F64.of_int (Blob.length blob) = Some x ∧
            amount = F64.div (F64.mul (F64.mul x F64.one) r) F64.two_pow_20).
  { unfold expected_payment in Hamount.
    destruct (F64.of_int (Blob.length blob)) as [x|]; [|discriminate].
    exists x. split; [reflexivity | congruence]. }
  repeat split; try exact Hformula.
  intros ->. exact Hformula.
Qed.

Lemma expected_payment_on_success_witness :
  blob_bytes_uploaded (handler Scenario.streamed) ≠ 0 ∧
  expected_payment Scenario.blob_x F64.half = Some F64.half ∧
  let done := transfer_finished (Succeeded tt) Scenario.streamed in
  log done.2 = log Scenario.streamed
                 ++ [EvAddExpectedPayment (Some Scenario.the_peer) F64.half;
                     EvUpdateStats "blobs_uploaded" 1;
                     EvCloseReadHandle Scenario.blob_x (Some 7%nat)] ∧
  blob_bytes_uploaded (handler done.2) = 0.
Proof.
  assert (Hn : blob_bytes_uploaded (handler Scenario.streamed) ≠ 0) by discriminate.
  assert (Hamount : expected_payment Scenario.blob_x F64.half = Some F64.half)
    by reflexivity.
  split; [exact Hn|]. split; [exact Hamount|].
  destruct (expected_payment_on_success Scenario.streamed F64.half Scenario.blob_x
              Scenario.the_peer Scenario.cut_off F64.half Hn eq_refl eq_refl eq_refl Hamount)
    as (Hdone & Hzero & _).
  cbn zeta. split; [now rewrite Hdone | exact Hzero].
Defined.

(** C2, as stated, fails on the failure path: blob X is being uploaded at
    the agreed rate 0.5, three bytes have gone out when the transfer
    fails; the handle is closed but the wallet is never called, and the
    byte counter still reads 3. *)
Lemma no_credit_when_transfer_fails :
  let out := send_blob_if_requested [Scenario.chunk] (Failed Scenario.cut_off)
               Scenario.uploading in
  blob_data_payment_rate (handler out.2) = Some F64.half ∧
  log out.2 = log Scenario.uploading
                ++ [EvBeginFileTransfer 7%nat;
                    EvUpdateStats "blob_bytes_uploaded" 3;
                    EvCloseReadHandle Scenario.blob_x (Some 7%nat)] ∧
  blob_bytes_uploaded (handler out.2) = 3.
Proof. vm_compute. repeat split. Qed.

(** ** Relating the state before and after a chain *)

Section Respects.
Context (R : relation Sys) `{!Reflexive R} `{!Transitive R}.

Lemma respects_ret {A} (a : A) : respects R (mret a).
Proof. intros s. cbn. reflexivity. Qed.

Lemma respects_fail {A} f : respects R (@fail A f).
Proof. intros s. cbn. reflexivity. Qed.

Lemma respects_await {A} (d : Deferred A) : respects R (await d).
Proof. intros s. cbn. reflexivity. Qed.

Lemma respects_get_self : respects R get_self.
Proof. intros s. cbn. reflexivity. Qed.

Lemma respects_bind {A B} (m : M A) (k : A -> M B) :
  respects R m -> (∀ a, respects R (k a)) -> respects R (m ≫= k).
Proof.
  intros Hm Hk s. unfold mbind, M_bind, bind.
  specialize (Hm s). destruct (m s) as [[a|f] s']; cbn in *.
  - etransitivity; [exact Hm | apply Hk].
  - exact Hm.
Qed.

Lemma respects_add_both {A B} (m : M A) (k : Deferred A -> M B) :
  respects R m -> (∀ r, respects R (k r)) -> respects R (add_both m k).
Proof.
  intros Hm Hk s. unfold add_both.
  specialize (Hm s). destruct (m s) as [r s']; cbn in *.
  etransitivity; [exact Hm | apply Hk].
Qed.

Lemma respects_the_peer attr : respects R (the_peer attr).
Proof.
  unfold the_peer. apply respects_bind; [apply respects_get_self|].
  intros self. destruct (peer self); [apply respects_ret | apply respects_fail].
Qed.

(** What [R] must allow: logging the events in [E] and changing the
    handler by the updates in [U]. *)
Context (E : Event -> Prop) (U : (BlobRequestHandler -> BlobRequestHandler) -> Prop).
Context (Hemit : ∀ e, E e -> respects R (emit e)).
Context (Hmodify : ∀ f, U f -> respects R (modify_self f)).

Lemma respects_get_available_blobs w requested :
  E (EvCompletedBlobs requested) ->
  respects R (_get_available_blobs w requested).
Proof.
  intros He. unfold _get_available_blobs.
  apply respects_bind; [now apply Hemit | intros; apply respects_await].
Qed.

Lemma respects_reply_to_availability w request blobs :
  E (EvCompletedBlobs blobs) ->
  respects R (_reply_to_availability w request blobs).
Proof.
  intros He. unfold _reply_to_availability.
  apply respects_bind; [now apply respects_get_available_blobs|].
  intros; apply respects_ret.
Qed.

Lemma respects_record_transaction w response blob r :
  (∀ h, E (EvAddBlobToUploadHistory (Blob.str blob) h r)) ->
  respects R (record_transaction w response blob r).
Proof.
  intros He. unfold record_transaction.
  apply respects_bind; [apply respects_the_peer | intros p].
  apply respects_bind; [now apply Hemit | intros _].
  apply respects_bind; [apply respects_await | intros; apply respects_ret].
Qed.

Lemma respects_count_bytes data :
  (∀ n, E (EvUpdateStats "blob_bytes_uploaded" n)) ->
  (∀ g, U (fun h => set_blob_bytes_uploaded (g h) h)) ->
  respects R (count_bytes data).
Proof.
  intros He Hu. unfold count_bytes.
  apply respects_bind; [apply (Hmodify _ (Hu _)) | intros _].
  apply respects_bind; [apply respects_the_peer | intros _].
  apply respects_bind; [now apply Hemit | intros; apply respects_ret].
Qed.

Lemma respects_stream chunks :
  (∀ n, E (EvUpdateStats "blob_bytes_uploaded" n)) ->
  (∀ g, U (fun h => set_blob_bytes_uploaded (g h) h)) ->
  respects R (stream chunks).
Proof.
  intros He Hu. induction chunks as [|data rest IH]; cbn.
  - apply respects_ret.
  - apply respects_bind; [now apply respects_count_bytes | intros _; exact IH].
Qed.

Lemma respects_start_transfer :
  (∀ h, E (EvBeginFileTransfer h)) ->
  U (set_file_sender true) ->
  respects R start_transfer.
Proof.
  intros He Hu. unfold start_transfer.
  apply respects_bind; [now apply Hmodify | intros _].
  apply respects_bind; [apply respects_get_self | intros self].
  destruct (read_handle self); [now apply Hemit | apply respects_fail].
Qed.

Lemma respects_set_expected_payment :
  (∀ p a, E (EvAddExpectedPayment p a)) ->
  (∀ n, E (EvUpdateStats "blobs_uploaded" n)) ->
  (∀ g, U (fun h => set_blob_bytes_uploaded (g h) h)) ->
  respects R set_expected_payment.
Proof.
  intros Hpay Hstat Hu. unfold set_expected_payment.
  apply respects_bind; [apply respects_get_self | intros self].
  apply respects_bind.
  - destruct (bool_decide _); [|apply respects_ret].
    destruct (blob_data_payment_rate self); [|apply respects_ret].
    destruct (currently_uploading self) as [blob|]; [|apply respects_fail].
    destruct (expected_payment blob _); [|apply respects_fail].
    apply respects_bind; [now apply Hemit | intros _].
    apply (Hmodify _ (Hu (fun _ => 0))).
  - intros _. apply respects_bind; [apply respects_the_peer | intros _].
    now apply Hemit.
Qed.

Lemma respects_earlier_stages w (queries : Dict) :
  (∀ v, E (EvCompletedBlobs v)) ->
  (∀ v, U (set_blobs_requested v)) ->
  (queries !! query_identifier 0 = None ∨
   ∀ offer request, respects R (reply_to_offer w offer request)) ->
  respects R (earlier_stages w queries).
Proof.
  intros He Hu Hoffer. unfold earlier_stages.
  assert (Havail : respects R
    (match queries !! query_identifier 2 with
     | Some requested =>
         modify_self (set_blobs_requested requested);;
         r ← mret ∅;
         self ← get_self;
         _reply_to_availability w r (_blobs_requested self)
     | None => mret ∅
     end)).
  { destruct (queries !! query_identifier 2); [|apply respects_ret].
    apply respects_bind; [now apply Hmodify | intros _].
    apply respects_bind; [apply respects_ret | intros r].
    apply respects_bind; [apply respects_get_self | intros self].
    now apply respects_reply_to_availability. }
  destruct (queries !! query_identifier 0) as [payload|]; [|exact Havail].
  destruct Hoffer as [[=]|Hoffer].
  apply respects_bind; [exact Havail | intros r; apply Hoffer].
Qed.

End Respects.

Lemma handle_queries_split w (queries : Dict) :
  handle_queries w queries =
  match queries !! query_identifier 1 with
  | Some incoming => earlier_stages w queries ≫= λ _, _reply_to_send_request w ∅ incoming
  | None => earlier_stages w queries
  end.
Proof. reflexivity. Qed.

(** Split a chain at its first callback. *)
Ltac bind_rule := refine (respects_bind _ _ _ _ _).

(** ** The agreed rate *)

#[export] Instance same_rate_refl : Reflexive same_rate.
Proof. intros s. reflexivity. Qed.

#[export] Instance same_rate_trans : Transitive same_rate.
Proof. unfold same_rate. intros s1 s2 s3 H12 H23. congruence. Qed.

#[export] Instance rate_evolves_refl : Reflexive rate_evolves.
Proof. intros s. left. reflexivity. Qed.

#[export] Instance rate_evolves_trans : Transitive rate_evolves.
Proof.
  unfold rate_evolves, same_rate. intros s1 s2 s3 H12 [H23|H23].
  - destruct H12 as [H12|(reply & Hacc & H12)].
    + left. congruence.
    + right. exists reply. split; [assumption | congruence].
  - now right.
Qed.

Lemma reply_to_offer_eq w offer (request : Dict) (s : Sys) :
  let blobs := dict_get request "available_blobs" (VList []) in
  let reply := respond_to_offer w offer (peer (handler s)) blobs in
  reply_to_offer w offer request s =
  if has_len blobs
  then (Succeeded (dict_update request (make_dict_from_offer w reply)),
        {| handler := if accepted reply
                      then set_blob_data_payment_rate (Some (rate reply)) (handler s)
                      else handler s;
           log := log s ++ [EvRespondToOffer offer (peer (handler s)) blobs] |})
  else (Failed (TypeError "object has no len()"), s).
Proof.
  cbn zeta. unfold reply_to_offer.
  destruct (has_len (dict_get request "available_blobs" (VList []))); [|reflexivity].
  chain. now destruct (accepted (respond_to_offer w offer (peer (handler s)) _)).
Qed.

Lemma reply_to_offer_rate_evolves w offer request :
  respects rate_evolves (reply_to_offer w offer request).
Proof.
  intros s. rewrite reply_to_offer_eq. cbn zeta.
  destruct (has_len _); [|reflexivity]. cbn.
  destruct (accepted _) eqn:Hacc.
  - right. eexists. split; [exact Hacc | reflexivity].
  - left. reflexivity.
Qed.

Lemma reply_to_offer_same_rate w offer request :
  (∀ o p blobs, accepted (respond_to_offer w o p blobs) = false) ->
  respects same_rate (reply_to_offer w offer request).
Proof.
  intros Hno s. rewrite reply_to_offer_eq. cbn zeta.
  destruct (has_len _); [|reflexivity]. cbn. now rewrite Hno.
Qed.

Section RateFrame.
Context (R : relation Sys) `{!Reflexive R} `{!Transitive R}.
Context (Hsub : ∀ s s', same_rate s s' -> R s s').

Lemma rate_emit e : (fun _ : Event => True) e -> respects R (emit e).
Proof. intros _ s. apply Hsub. reflexivity. Qed.

Lemma rate_modify f : keeps_rate f -> respects R (modify_self f).
Proof. intros Hf s. apply Hsub. apply Hf. Qed.

Lemma rate_keeps_counter g : keeps_rate (fun h => set_blob_bytes_uploaded (g h) h).
Proof. intros h. reflexivity. Qed.

Lemma rate_open_blob_for_reading blob response :
  respects R (open_blob_for_reading blob response).
Proof.
  intros s. rewrite open_blob_for_reading_eq.
  destruct (Blob.is_validated blob); [destruct (Blob.open_for_reading blob)|];
    apply Hsub; reflexivity.
Qed.

Lemma rate_reply_to_send_request w response incoming :
  respects R (_reply_to_send_request w response incoming).
Proof.
  unfold _reply_to_send_request.
  bind_rule; [now apply respects_get_self|].
  intros self. destruct (blob_data_payment_rate self); [|now apply respects_ret].
  bind_rule; [now apply rate_emit | intros _].
  bind_rule; [now apply respects_await | intros blob].
  bind_rule; [apply rate_open_blob_for_reading | intros rb].
  now apply (respects_record_transaction R (fun _ => True) rate_emit).
Qed.

Lemma rate_set_not_uploading {A} (reason : Deferred A) :
  respects R (set_not_uploading reason).
Proof.
  intros s. rewrite set_not_uploading_eq.
  destruct (currently_uploading (handler s)); apply Hsub; reflexivity.
Qed.

Lemma rate_transfer_finished outcome : respects R (transfer_finished outcome).
Proof.
  unfold transfer_finished.
  refine (respects_add_both _ _ _ _ _); [|intros; apply rate_set_not_uploading].
  bind_rule; [now apply respects_await | intros _].
  apply (respects_set_expected_payment R (fun _ => True) keeps_rate rate_emit rate_modify);
    auto using rate_keeps_counter.
Qed.

Lemma rate_send_blob_if_requested chunks outcome :
  respects R (send_blob_if_requested chunks outcome).
Proof.
  unfold send_blob_if_requested.
  bind_rule; [now apply respects_get_self | intros self].
  destruct (currently_uploading self); [|now apply respects_ret].
  unfold send_file.
  bind_rule; [|intros _].
  { apply (respects_start_transfer R (fun _ => True) keeps_rate rate_emit rate_modify);
      [auto | intros h; reflexivity]. }
  bind_rule; [|intros _].
  { apply (respects_stream R (fun _ => True) keeps_rate rate_emit rate_modify);
      auto using rate_keeps_counter. }
  bind_rule; [apply rate_transfer_finished | intros _].
  now apply respects_ret.
Qed.

Lemma rate_cancel_send {E} (err : E) : respects R (cancel_send err).
Proof. intros s. rewrite cancel_send_eq. apply Hsub. reflexivity. Qed.

Lemma rate_earlier_stages w (queries : Dict) :
  (queries !! query_identifier 0 = None ∨
   ∀ offer request, respects R (reply_to_offer w offer request)) ->
  respects R (earlier_stages w queries).
Proof.
  apply (respects_earlier_stages R (fun _ => True) keeps_rate rate_emit rate_modify);
    [auto | intros v h; reflexivity].
Qed.

Lemma rate_handle_queries w (queries : Dict) :
  (queries !! query_identifier 0 = None ∨
   ∀ offer request, respects R (reply_to_offer w offer request)) ->
  respects R (handle_queries w queries).
Proof.
  intros Hoffer. rewrite handle_queries_split.
  destruct (queries !! query_identifier 1); [|now apply rate_earlier_stages].
  bind_rule; [now apply rate_earlier_stages|].
  intros _. apply rate_reply_to_send_request.
Qed.

End RateFrame.

Lemma step_frames_rate (R : relation Sys) `{!Reflexive R} `{!Transitive R}
    (Hsub : ∀ s s', same_rate s s' -> R s s') op :
  (∀ w queries, op = OpHandleQueries w queries ->
     queries !! query_identifier 0 = None ∨
     ∀ offer request, respects R (reply_to_offer w offer request)) ->
  ∀ s, R s (step op s).
Proof.
  intros Hoffer s. destruct op; cbn [step].
  - apply (rate_modify R Hsub). intros h. reflexivity.
  - apply (rate_handle_queries R Hsub). now apply Hoffer.
  - apply (rate_send_blob_if_requested R Hsub).
  - apply (respects_start_transfer R (fun _ => True) keeps_rate
             (rate_emit R Hsub) (rate_modify R Hsub)); [auto | intros h; reflexivity].
  - apply (respects_count_bytes R (fun _ => True) keeps_rate
             (rate_emit R Hsub) (rate_modify R Hsub)); [auto | intros g h; reflexivity].
  - apply (rate_transfer_finished R Hsub).
  - apply (rate_cancel_send R Hsub).
Qed.

Lemma step_rate_evolves op (s : Sys) : rate_evolves s (step op s).
Proof.
  apply (step_frames_rate rate_evolves (fun s s' H => or_introl H)).
  intros w queries _. right. apply reply_to_offer_rate_evolves.
Qed.

Lemma run_cons op ops (s : Sys) : run (op :: ops) s = run ops (step op s).
Proof. reflexivity. Qed.

Lemma run_rate_evolves ops (s : Sys) : rate_evolves s (run ops s).
Proof.
  revert s. induction ops as [|op ops IH]; intros s.
  - reflexivity.
  - rewrite run_cons. etransitivity; [apply step_rate_evolves | apply IH].
Qed.

Lemma earlier_stages_split w (queries : Dict) :
  earlier_stages w queries =
  match queries !! query_identifier 0 with
  | Some payload =>
      availability_stage w queries ≫= λ r, reply_to_offer w {| offered := payload |} r
  | None => availability_stage w queries
  end.
Proof. reflexivity. Qed.

Lemma availability_stage_same_rate w (queries : Dict) :
  respects same_rate (availability_stage w queries).
Proof.
  pose proof (rate_earlier_stages same_rate (fun s s' H => H) w
                (delete (query_identifier 0) queries)) as Hearlier.
  unfold earlier_stages in Hearlier. unfold availability_stage.
  rewrite lookup_delete_eq, lookup_delete_ne in Hearlier by discriminate.
  apply Hearlier. now left.
Qed.

Lemma step_same_rate op (s : Sys) : accepts_offer op s = false -> same_rate s (step op s).
Proof.
  intros Hdecl. destruct op;
    try (apply (step_frames_rate same_rate (fun s s' H => H)); intros ? ? ?; discriminate).
  cbn [step]. cbn in Hdecl. unfold offer_outcome in Hdecl.
  assert (Hearlier : same_rate s (earlier_stages w queries s).2).
  { rewrite earlier_stages_split.
    destruct (queries !! query_identifier 0) as [payload|];
      [|apply availability_stage_same_rate].
    pose proof (availability_stage_same_rate w queries s) as Havail.
    unfold mbind, M_bind, bind.
    destruct (availability_stage w queries s) as [[r|f] s1]; cbn in *; [|exact Havail].
    etransitivity; [exact Havail|].
    rewrite reply_to_offer_eq. cbn zeta.
    destruct (has_len _); [|reflexivity].
    unfold same_rate. cbn. now rewrite Hdecl. }
  rewrite handle_queries_split.
  destruct (queries !! query_identifier 1) as [incoming|]; [|exact Hearlier].
  unfold mbind, M_bind, bind.
  destruct (earlier_stages w queries s) as [[r|f] s2]; cbn in *; [|exact Hearlier].
  etransitivity; [exact Hearlier|].
  apply (rate_reply_to_send_request same_rate (fun s s' H => H)).
Qed.

Lemma run_same_rate ops (s : Sys) :
  no_offer_accepted ops s = true -> same_rate s (run ops s).
Proof.
  revert s. induction ops as [|op ops IH]; intros s Hnone; [reflexivity|].
  cbn in Hnone. apply andb_true_iff in Hnone as [Hop Hrest].
  apply negb_true_iff in Hop.
  rewrite run_cons. etransitivity; [apply (step_same_rate op s Hop) | now apply IH].
Qed.

Lemma dict_update_lookup (d r : Dict) k :
  dict_update d r !! k = match r !! k with Some v => Some v | None => d !! k end.
Proof.
  unfold dict_update. rewrite lookup_union.
  now destruct (r !! k), (d !! k).
Qed.

Lemma rate_evolves_set (s s' : Sys) :
  rate_evolves s s' ->
  blob_data_payment_rate (handler s) ≠ None ->
  blob_data_payment_rate (handler s') ≠ None.
Proof.
  intros [Hsame|(reply & _ & Hnew)] Hset.
  - unfold same_rate in Hsame. congruence.
  - congruence.
Qed.

(** With a rate agreed, a response of the download stage is the one
    built from the fetched blob. *)
Lemma reply_to_send_request_set w (response : Dict) incoming (s : Sys) r reply :
  blob_data_payment_rate (handler s) = Some r ->
  (_reply_to_send_request w response incoming s).1 = Succeeded reply ->
  ∃ blob, get_blob w incoming = Succeeded blob ∧ reply = serviced_response blob response.
Proof.
  intros Hrate Hout.
  destruct (get_blob w incoming) as [blob|f] eqn:Hblob.
  - exists blob. split; [reflexivity|].
    destruct (peer (handler s)) as [p|] eqn:Hpeer.
    + rewrite (reply_to_send_request_serviced _ _ _ _ _ _ _ Hrate Hblob Hpeer) in Hout.
      cbn in Hout. destruct (add_blob_to_upload_history _ _ _ _); congruence.
    + exfalso. revert Hout. unfold _reply_to_send_request, record_transaction. chain.
      rewrite Hrate, Hblob, open_blob_for_reading_eq.
      destruct (Blob.is_validated blob); [destruct (Blob.open_for_reading blob)|];
        chain; rewrite Hpeer; discriminate.
  - exfalso. revert Hout. unfold _reply_to_send_request. chain.
    rewrite Hrate, Hblob. discriminate.
Qed.

(** C7. [reply_to_offer] hands the offer, the peer and the available
    blobs to the strategy (the available blobs must have a length: on a
    value without one the logging call raises a type error before the
    strategy is consulted, and nothing changes). The handler changes only
    when the reply is accepted, and then only in [blob_data_payment_rate],
    which becomes the reply's rate whatever it was before. In both cases
    the response returned is the request with the serialized reply merged
    in: each key of the reply is set to the reply's value, every other key
    keeps the request's. After an accepted reply, for as long as the
    strategy accepts no later offer (whatever else it is shown and
    whatever else is done), the rate stays the accepted one and each
    serviced download request is recorded at that rate. *)
Theorem offer_sets_rate_when_accepted w offer (request : Dict) (s : Sys) :
  let blobs := dict_get request "available_blobs" (VList []) in
  let reply := respond_to_offer w offer (peer (handler s)) blobs in
  let out := reply_to_offer w offer request s in
  if has_len blobs then
    (∃ response : Dict,
       out.1 = Succeeded response ∧
       ∀ k, response !! k = match make_dict_from_offer w reply !! k with
                            | Some v => Some v
                            | None => request !! k
                            end) ∧
    handler out.2 = (if accepted reply
                     then set_blob_data_payment_rate (Some (rate reply)) (handler s)
                     else handler s) ∧
    log out.2 = log s ++ [EvRespondToOffer offer (peer (handler s)) blobs] ∧
    (accepted reply = true ->
     ∀ ops, no_offer_accepted ops out.2 = true ->
       let later := run ops out.2 in
       blob_data_payment_rate (handler later) = Some (rate reply) ∧
       ∀ w' (response : Dict) incoming blob p,
         get_blob w' incoming = Succeeded blob ->
         peer (handler later) = Some p ->
         log (_reply_to_send_request w' response incoming later).2 =
         log later ++ [EvGetBlob incoming]
           ++ (if Blob.is_validated blob
               then [EvOpenForReading blob (Blob.open_for_reading blob)] else [])
           ++ [EvAddBlobToUploadHistory (Blob.str blob) (host p) (rate reply)])
  else out = (Failed (TypeError "object has no len()"), s).
Proof.
  cbn zeta. rewrite reply_to_offer_eq. cbn zeta.
  destruct (has_len (dict_get request "available_blobs" (VList []))); [|reflexivity].
  cbn [fst snd handler log].
  split; [eexists; split; [reflexivity | intros k; apply dict_update_lookup]|].
  split; [reflexivity|]. split; [reflexivity|].
  intros Hacc ops Hnone.
  match goal with |- context [run ops ?x] => set (s1 := x) in * end.
  assert (Hrate : blob_data_payment_rate (handler (run ops s1))
                  = Some (rate (respond_to_offer w offer (peer (handler s))
                                  (dict_get request "available_blobs" (VList []))))).
  { pose proof (run_same_rate ops s1 Hnone) as Hsame.
    unfold same_rate in Hsame. rewrite Hsame. subst s1. cbn. now rewrite Hacc. }
  split; [exact Hrate|].
  intros w' response incoming blob p Hblob Hpeer.
  now rewrite (reply_to_send_request_serviced _ _ _ _ _ _ _ Hrate Hblob Hpeer).
Qed.

Lemma offer_sets_rate_when_accepted_witness :
  let out := reply_to_offer Scenario.world {| offered := VNum F64.half |}
               {["available_blobs" := VList [VStr "X"]]} Scenario.registered in
  let ops := [OpHandleQueries Scenario.world_declining Scenario.offer_query;
              OpCancelSend Scenario.cut_off;
              OpHandleQueries Scenario.world Scenario.download_u] in
  no_offer_accepted ops out.2 = true ∧
  (∃ response : Dict,
     out.1 = Succeeded response ∧
     response !! "available_blobs" = Some (VList [VStr "X"]) ∧
     response !! "blob_data_payment_rate" = Some (VStr "RATE_ACCEPTED")) ∧
  blob_data_payment_rate (handler (run ops out.2)) = Some F64.half.
Proof.
  cbn zeta.
  pose proof (offer_sets_rate_when_accepted Scenario.world {| offered := VNum F64.half |}
                {["available_blobs" := VList [VStr "X"]]} Scenario.registered) as H.
  cbn zeta in H.
  change (has_len (dict_get {["available_blobs" := VList [VStr "X"]]} "available_blobs"
                     (VList []))) with true in H.
  destruct H as ((response & Hout & Hlookup) & _ & _ & Hlater).
  split; [reflexivity|]. split.
  - exists response. split; [exact Hout|].
    split; [now rewrite Hlookup | now rewrite Hlookup].
  - refine (proj1 (Hlater _ _ _)); reflexivity.
Defined.

(** C10. A new handler has no rate. Every operation either leaves
    [blob_data_payment_rate] as it is or sets it to the rate of an
    accepted reply; hence a rate, once set, is set after every further
    sequence of operations, and the download stage then never answers
    RATE_UNSET. *)
Theorem rate_stays_set ops (s : Sys) :
  blob_data_payment_rate (handler s) ≠ None ->
  blob_data_payment_rate init = None ∧
  (∀ op s0, rate_evolves s0 (step op s0)) ∧
  blob_data_payment_rate (handler (run ops s)) ≠ None ∧
  ∀ w (response reply : Dict) incoming,
    response !! "error" ≠ Some (VStr "RATE_UNSET") ->
    (_reply_to_send_request w response incoming (run ops s)).1 = Succeeded reply ->
    reply !! "error" ≠ Some (VStr "RATE_UNSET").
Proof.
  intros Hset.
  assert (Hlater : blob_data_payment_rate (handler (run ops s)) ≠ None)
    by (eapply rate_evolves_set; [apply run_rate_evolves | exact Hset]).
  split; [reflexivity|]. split; [apply step_rate_evolves|]. split; [exact Hlater|].
  intros w response reply incoming Hresp Hout.
  destruct (blob_data_payment_rate (handler (run ops s))) as [r|] eqn:Hrate; [|congruence].
  destruct (reply_to_send_request_set _ _ _ _ _ _ Hrate Hout) as (blob & _ & ->).
  unfold serviced_response. destruct (acquired blob).
  - now rewrite lookup_insert_ne.
  - rewrite lookup_insert_eq. discriminate.
Qed.

Lemma rate_stays_set_witness :
  blob_data_payment_rate (handler Scenario.negotiated) ≠ None ∧
  blob_data_payment_rate
    (handler (run [OpHandleQueries Scenario.world_declining Scenario.offer_query;
                   OpHandleQueries Scenario.world Scenario.download_x;
                   OpCancelSend Scenario.cut_off] Scenario.negotiated)) ≠ None.
Proof.
  assert (Hset : blob_data_payment_rate (handler Scenario.negotiated) ≠ None)
    by discriminate.
  split; [exact Hset|].
  exact (proj1 (proj2 (proj2 (rate_stays_set _ Scenario.negotiated Hset)))).
Defined.

(** ** Read handles *)

Lemma handle_trace_app l l' : handle_trace (l ++ l') = handle_trace l ++ handle_trace l'.
Proof. apply omap_app. Qed.

Lemma handle_trace_snoc_none l e :
  handle_event e = None -> handle_trace (l ++ [e]) = handle_trace l.
Proof.
  intros He. rewrite handle_trace_app. cbn. rewrite He. apply app_nil_r.
Qed.

Lemma handle_trace_snoc_some l e he :
  handle_event e = Some he -> handle_trace (l ++ [e]) = handle_trace l ++ [he].
Proof. intros He. rewrite handle_trace_app. cbn. now rewrite He. Qed.

Lemma well_bracketed_app held t t' :
  well_bracketed held (t ++ t') = well_bracketed held t ≫= λ held', well_bracketed held' t'.
Proof.
  revert held. induction t as [|e t IH]; intros held; [reflexivity|].
  destruct e as [blob handle|blob handle]; cbn.
  - destruct held; [reflexivity | apply IH].
  - destruct held as [[blob' handle']|]; [|reflexivity].
    case_decide; [apply IH | reflexivity].
Qed.

Lemma well_bracketed_counts held t held' :
  well_bracketed held t = Some held' ->
  (opens t + held_count held = closes t + held_count held')%nat.
Proof.
  revert held. induction t as [|e t IH]; intros held; cbn.
  - now intros [= ->].
  - destruct e as [blob handle|blob handle]; cbn.
    + destruct held; [discriminate|]. intros Ht. apply IH in Ht. cbn in *. lia.
    + destruct held as [[blob' handle']|]; [|discriminate].
      case_decide; [|discriminate]. intros Ht. apply IH in Ht. cbn in *. lia.
Qed.

#[export] Instance same_handles_refl : Reflexive same_handles.
Proof. intros s. now repeat split. Qed.

#[export] Instance same_handles_trans : Transitive same_handles.
Proof.
  unfold same_handles. intros s1 s2 s3 (? & ? & ?) (? & ? & ?).
  repeat split; congruence.
Qed.

Lemma handles_emit e : no_handle_event e -> respects same_handles (emit e).
Proof.
  intros He s. cbn. repeat split. now apply handle_trace_snoc_none.
Qed.

Lemma handles_modify f : keeps_session f -> respects same_handles (modify_self f).
Proof. intros Hf s. cbn. destruct (Hf (handler s)). now repeat split. Qed.

Lemma handles_keeps_counter g : keeps_session (fun h => set_blob_bytes_uploaded (g h) h).
Proof. intros h. now split. Qed.

Lemma handles_reply_to_offer w offer request :
  respects same_handles (reply_to_offer w offer request).
Proof.
  intros s. rewrite reply_to_offer_eq. cbn zeta.
  destruct (has_len _); [|reflexivity]. cbn.
  destruct (accepted _); repeat split; now apply handle_trace_snoc_none.
Qed.

Lemma handles_earlier_stages w (queries : Dict) :
  respects same_handles (earlier_stages w queries).
Proof.
  apply (respects_earlier_stages same_handles no_handle_event keeps_session
           handles_emit handles_modify).
  - intros v. reflexivity.
  - intros v h. now split.
  - right. apply handles_reply_to_offer.
Qed.

Lemma handles_start_transfer : respects same_handles start_transfer.
Proof.
  apply (respects_start_transfer same_handles no_handle_event keeps_session
           handles_emit handles_modify).
  - intros h. reflexivity.
  - intros h. now split.
Qed.

Lemma handles_count_bytes data : respects same_handles (count_bytes data).
Proof.
  apply (respects_count_bytes same_handles no_handle_event keeps_session
           handles_emit handles_modify).
  - intros n. reflexivity.
  - apply handles_keeps_counter.
Qed.

Lemma handles_stream chunks : respects same_handles (stream chunks).
Proof.
  apply (respects_stream same_handles no_handle_event keeps_session
           handles_emit handles_modify).
  - intros n. reflexivity.
  - apply handles_keeps_counter.
Qed.

Lemma handles_set_expected_payment : respects same_handles set_expected_payment.
Proof.
  apply (respects_set_expected_payment same_handles no_handle_event keeps_session
           handles_emit handles_modify).
  - intros p a. reflexivity.
  - intros n. reflexivity.
  - apply handles_keeps_counter.
Qed.

Lemma handles_record_transaction w response blob r :
  respects same_handles (record_transaction w response blob r).
Proof.
  apply (respects_record_transaction same_handles no_handle_event handles_emit).
  intros h. reflexivity.
Qed.

Lemma accounted_same_handles (s s' : Sys) :
  handles_accounted s -> same_handles s s' -> handles_accounted s'.
Proof.
  unfold handles_accounted, same_handles, session.
  intros [Htrace Hcu] (Ecu & Erh & Et). now rewrite Ecu, Erh, Et.
Qed.

Lemma accounted_opened (s s' : Sys) blob handle :
  handles_accounted s ->
  currently_uploading (handler s) = None ->
  currently_uploading (handler s') = Some blob ->
  read_handle (handler s') = Some handle ->
  handle_trace (log s') = handle_trace (log s) ++ [Opened blob handle] ->
  handles_accounted s'.
Proof.
  unfold handles_accounted, session.
  intros [Htrace _] Hidle Ecu Erh Et. rewrite Ecu, Erh, Et, well_bracketed_app, Htrace.
  rewrite Hidle. cbn. now split.
Qed.

(** Closing the session's handle, if there is a session, and clearing
    the session. *)
Lemma accounted_released (s s' : Sys) :
  handles_accounted s ->
  currently_uploading (handler s') = None ->
  log s' = match currently_uploading (handler s) with
           | Some blob => log s ++ [EvCloseReadHandle blob (read_handle (handler s))]
           | None => log s
           end ->
  handles_accounted s'.
Proof.
  unfold handles_accounted, session.
  intros [Htrace Hcu] Ecu Elog. rewrite Ecu, Elog. split; [|reflexivity].
  destruct (currently_uploading (handler s)) as [blob|] eqn:Eblob.
  - destruct (read_handle (handler s)) as [handle|] eqn:Ehandle.
    + rewrite (handle_trace_snoc_some _ _ (Closed blob (Some handle))) by reflexivity.
      rewrite well_bracketed_app, Htrace. cbn. now rewrite decide_True.
    + now specialize (Hcu eq_refl).
  - exact Htrace.
Qed.

Lemma preserves_respects {A} (m : M A) :
  respects same_handles m -> preserves handles_accounted m.
Proof. intros Hm s Hs. eapply accounted_same_handles; [exact Hs | apply Hm]. Qed.

Lemma preserves_bind (P : Sys -> Prop) {A B} (m : M A) (k : A -> M B) :
  preserves P m -> (∀ a, preserves P (k a)) -> preserves P (m ≫= k).
Proof.
  intros Hm Hk s Hs. unfold mbind, M_bind, bind.
  specialize (Hm s Hs). destruct (m s) as [[a|f] s']; cbn in *.
  - now apply Hk.
  - exact Hm.
Qed.

Lemma preserves_add_both (P : Sys -> Prop) {A B} (m : M A) (k : Deferred A -> M B) :
  preserves P m -> (∀ r, preserves P (k r)) -> preserves P (add_both m k).
Proof.
  intros Hm Hk s Hs. unfold add_both.
  specialize (Hm s Hs). destruct (m s) as [r s']; cbn in *. now apply Hk.
Qed.

Lemma accounted_set_not_uploading {A} (reason : Deferred A) :
  preserves handles_accounted (set_not_uploading reason).
Proof.
  intros s Hs. rewrite set_not_uploading_eq. cbn.
  apply (accounted_released s); [exact Hs | |];
    destruct (currently_uploading (handler s)) eqn:Ecu; cbn; auto.
Qed.

Lemma accounted_cancel_send {E} (err : E) :
  preserves handles_accounted (cancel_send err).
Proof.
  intros s Hs. rewrite cancel_send_eq. cbn.
  now apply (accounted_released s).
Qed.

Lemma accounted_transfer_finished outcome :
  preserves handles_accounted (transfer_finished outcome).
Proof.
  unfold transfer_finished. apply preserves_add_both.
  - apply preserves_respects. bind_rule; [now apply respects_await | intros _].
    apply handles_set_expected_payment.
  - intros r. apply accounted_set_not_uploading.
Qed.

Lemma accounted_send_blob_if_requested chunks outcome :
  preserves handles_accounted (send_blob_if_requested chunks outcome).
Proof.
  unfold send_blob_if_requested.
  apply preserves_bind; [apply preserves_respects; now apply respects_get_self|].
  intros self. destruct (currently_uploading self).
  - unfold send_file.
    apply preserves_bind; [apply preserves_respects, handles_start_transfer | intros _].
    apply preserves_bind; [apply preserves_respects, handles_stream | intros _].
    apply preserves_bind; [apply accounted_transfer_finished | intros _].
    apply preserves_respects. now apply respects_ret.
  - apply preserves_respects. now apply respects_ret.
Qed.

(** The download stage leaves the handles alone or opens one and makes
    it the session. *)
Lemma reply_to_send_request_handles w (response : Dict) incoming (s : Sys) :
  let s' := (_reply_to_send_request w response incoming s).2 in
  same_handles s s' ∨
  ∃ blob handle,
    currently_uploading (handler s') = Some blob ∧
    read_handle (handler s') = Some handle ∧
    handle_trace (log s') = handle_trace (log s) ++ [Opened blob handle].
Proof.
  cbn zeta. unfold _reply_to_send_request. chain.
  destruct (blob_data_payment_rate (handler s)) as [r|]; [|left; reflexivity].
  destruct (get_blob w incoming) as [blob|f]; cycle 1.
  { left. cbn. repeat split. now apply handle_trace_snoc_none. }
  rewrite open_blob_for_reading_eq.
  pose proof (handles_record_transaction w) as Hrec.
  destruct (Blob.is_validated blob); [destruct (Blob.open_for_reading blob) as [handle|]|].
  - right. exists blob, handle.
    match goal with |- context [record_transaction w ?a ?b r ?x] =>
      destruct (Hrec a b r x) as (Ecu & Erh & Et) end.
    rewrite Ecu, Erh, Et. cbn. repeat split.
    rewrite (handle_trace_snoc_some _ _ (Opened blob handle)) by reflexivity.
    now rewrite handle_trace_snoc_none.
  - left.
    match goal with |- context [record_transaction w ?a ?b r ?x] =>
      transitivity x; [|apply (Hrec a b r x)] end.
    repeat split. cbn [log]. now rewrite !handle_trace_snoc_none.
  - left.
    match goal with |- context [record_transaction w ?a ?b r ?x] =>
      transitivity x; [|apply (Hrec a b r x)] end.
    repeat split. cbn [log]. now rewrite handle_trace_snoc_none.
Qed.

Lemma idle_true (s : Sys) : idle s = true -> currently_uploading (handler s) = None.
Proof. unfold idle. now destruct (currently_uploading (handler s)). Qed.

Lemma idle_session (s : Sys) : idle s = true -> session (handler s) = None.
Proof. intros Hidle. unfold session. now rewrite (idle_true s Hidle). Qed.

Lemma accounted_handle_queries w (queries : Dict) (s : Sys) :
  handles_accounted s ->
  (is_Some (queries !! query_identifier 1) -> currently_uploading (handler s) = None) ->
  handles_accounted (handle_queries w queries s).2.
Proof.
  intros Hs Hidle. rewrite handle_queries_split.
  pose proof (handles_earlier_stages w queries s) as Hearlier.
  destruct (queries !! query_identifier 1) as [incoming|];
    [|now apply (accounted_same_handles s)].
  unfold mbind, M_bind, bind.
  destruct (earlier_stages w queries s) as [[r|f] s2]; cbn in *;
    [|now apply (accounted_same_handles s)].
  assert (Hs2 : handles_accounted s2) by now apply (accounted_same_handles s).
  destruct (reply_to_send_request_handles w ∅ incoming s2)
    as [Hsame|(blob & handle & Ecu & Erh & Et)].
  - now apply (accounted_same_handles s2).
  - apply (accounted_opened s2 _ blob handle); try assumption.
    destruct Hearlier as (-> & _ & _). apply Hidle. now eexists.
Qed.

Lemma accounted_step op (s : Sys) :
  handles_accounted s ->
  (requests_download op = true -> idle s = true) ->
  handles_accounted (step op s).
Proof.
  intros Hs Hidle. destruct op; cbn [step].
  - apply (accounted_same_handles s); [exact Hs|].
    apply handles_modify. intros h. now split.
  - apply accounted_handle_queries; [exact Hs|].
    intros Hdl. apply idle_true, Hidle. cbn. now apply bool_decide_eq_true.
  - now apply accounted_send_blob_if_requested.
  - apply (accounted_same_handles s); [exact Hs | apply handles_start_transfer].
  - apply (accounted_same_handles s); [exact Hs | apply handles_count_bytes].
  - now apply accounted_transfer_finished.
  - now apply accounted_cancel_send.
Qed.

Lemma accounted_run ops (s : Sys) :
  one_at_a_time ops s = true -> handles_accounted s -> handles_accounted (run ops s).
Proof.
  revert s. induction ops as [|op ops IH]; intros s Hseq Hs; [exact Hs|].
  cbn in Hseq. apply andb_true_iff in Hseq as [Hop Hrest].
  rewrite run_cons. apply IH; [exact Hrest|].
  apply accounted_step; [exact Hs|]. intros Hdl. now rewrite Hdl in Hop.
Qed.

Lemma accounted_fresh : handles_accounted fresh.
Proof. split; reflexivity. Qed.

(** C5, as the code has it. When the transport asks for one blob at a
    time (a query batch with a download request arrives only while no
    session is active), then after any sequence of registrations, query
    batches, transfers (whole or interleaved with other operations, ending
    in success or failure) and cancellations on a new handler: the log
    opens and closes read handles in strict alternation, each close
    releasing on its blob the handle opened just before; the handle still
    held, if any, is the session's; the opens outnumber the closes by
    exactly the one session that is active; and with no session active
    the two counts are equal. *)
Theorem handles_balanced ops :
  one_at_a_time ops fresh = true ->
  let s := run ops fresh in
  let t := handle_trace (log s) in
  well_bracketed None t = Some (session (handler s)) ∧
  (opens t = closes t + held_count (session (handler s)))%nat ∧
  (idle s = true -> opens t = closes t).
Proof.
  intros Hseq. cbn zeta.
  destruct (accounted_run ops fresh Hseq accounted_fresh) as [Htrace _].
  pose proof (well_bracketed_counts _ _ _ Htrace) as Hcount. cbn in Hcount.
  split; [exact Htrace|]. split; [lia|].
  intros Hidle. rewrite (idle_session _ Hidle) in Hcount. cbn in Hcount. lia.
Qed.

Lemma handles_balanced_witness :
  one_at_a_time Scenario.orderly fresh = true ∧
  handle_trace (log (run Scenario.orderly fresh)) =
    [Opened Scenario.blob_x 7%nat; Closed Scenario.blob_x (Some 7%nat);
     Opened Scenario.blob_y 8%nat; Closed Scenario.blob_y (Some 8%nat)] ∧
  opens (handle_trace (log (run Scenario.orderly fresh))) =
  closes (handle_trace (log (run Scenario.orderly fresh))).
Proof.
  split; [reflexivity|]. split; [reflexivity|].
  exact (proj2 (proj2 (handles_balanced Scenario.orderly eq_refl)) eq_refl).
Defined.

(** C5, as stated, fails: two download requests are serviced one after
    the other with no transfer or cancellation between them. The handle of
    blob X is overwritten by that of blob Y and is never closed, whatever
    follows: two opens in a row, and after the transfer has ended and a
    cancellation has been called, two opens against one close. *)
Lemma second_download_leaks_handle :
  let s := run Scenario.hasty fresh in
  handle_trace (log s) =
    [Opened Scenario.blob_x 7%nat; Opened Scenario.blob_y 8%nat;
     Closed Scenario.blob_y (Some 8%nat)] ∧
  session (handler s) = None ∧
  opens (handle_trace (log s)) = 2%nat ∧
  closes (handle_trace (log s)) = 1%nat ∧
  well_bracketed None (handle_trace (log s)) = None.
Proof. vm_compute. repeat split. Qed.

(** * Further properties of the module *)

(** ** The query pipeline, stage by stage *)

(** X1. A batch with none of the three recognized keys (the empty batch
    among them) is answered with the empty response; no collaborator is
    called and the handler is left as it was. *)
Theorem handle_queries_nothing_recognized w (queries : Dict) (s : Sys) :
  queries !! query_identifier 0 = None ->
  queries !! query_identifier 1 = None ->
  queries !! query_identifier 2 = None ->
  handle_queries w queries s = (Succeeded ∅, s).
Proof.
  intros H0 H1 H2. unfold handle_queries. now rewrite H0, H1, H2.
Qed.

Lemma handle_queries_nothing_recognized_witness :
  handle_queries Scenario.world {["blob_price" := VNum F64.half]} Scenario.negotiated
  = (Succeeded ∅, Scenario.negotiated).
Proof. apply handle_queries_nothing_recognized; reflexivity. Defined.

(** X2. Keys other than the three recognized ones are ignored: two
    batches that agree on [blob_data_payment_rate], [requested_blob] and
    [requested_blobs] are handled in the same way, response and effects
    alike. *)
Theorem handle_queries_ignores_other_keys w (queries queries' : Dict) (s : Sys) :
  (∀ i, (i < 3)%nat -> queries !! query_identifier i = queries' !! query_identifier i) ->
  handle_queries w queries s = handle_queries w queries' s.
Proof.
  intros Hagree. unfold handle_queries.
  now rewrite (Hagree 0%nat), (Hagree 1%nat), (Hagree 2%nat) by lia.
Qed.

Lemma handle_queries_ignores_other_keys_witness :
  handle_queries Scenario.world (<["blob_price" := VNum F64.half]> Scenario.full_batch)
    Scenario.registered
  = handle_queries Scenario.world Scenario.full_batch Scenario.registered.
Proof.
  apply handle_queries_ignores_other_keys.
  intros i Hi. destruct i as [|[|[|i]]]; [reflexivity..|lia].
Defined.

(** X3. When the blob manager's [completed_blobs] fails, the batch fails
    with that failure and the pipeline stops there: the strategy is not
    consulted and no blob is fetched, so the rate and the session are as
    before. The requested list has been stored in [_blobs_requested] all
    the same. *)
Theorem availability_failure_stops_pipeline w (queries : Dict) (s : Sys) requested f :
  queries !! query_identifier 2 = Some requested ->
  completed_blobs w requested = Failed f ->
  handle_queries w queries s =
  (Failed f,
   {| handler := set_blobs_requested requested (handler s);
      log := log s ++ [EvCompletedBlobs requested] |}).
Proof.
  intros Hkey Hfail. unfold handle_queries, _reply_to_availability, _get_available_blobs.
  rewrite Hkey.
  destruct (queries !! query_identifier 0), (queries !! query_identifier 1);
    chain; now rewrite Hfail.
Qed.

Lemma availability_failure_stops_pipeline_witness :
  handle_queries Outage.world_without_listing Scenario.full_batch Scenario.negotiated =
  (Failed Outage.storage_down,
   {| handler := set_blobs_requested (VList [VStr "X"; VStr "Y"])
                   (handler Scenario.negotiated);
      log := log Scenario.negotiated ++ [EvCompletedBlobs (VList [VStr "X"; VStr "Y"])] |}).
Proof.
  apply (availability_failure_stops_pipeline Outage.world_without_listing
           Scenario.full_batch Scenario.negotiated); reflexivity.
Defined.

Lemma dict_update_empty (d : Dict) : dict_update ∅ d = d.
Proof. unfold dict_update. apply (right_id ∅ (∪)). Qed.

Lemma dict_get_singleton k v default : dict_get {[k := v]} k default = v.
Proof. unfold dict_get. now rewrite lookup_singleton_eq. Qed.

(** X4. The negotiation stage sees what the availability stage of the
    same batch found: with [requested_blobs] and an offer in one batch
    (and no download request), the strategy is consulted after the blob
    manager and is handed the blobs the blob manager reported; the
    response holds [available_blobs] and, over it, the serialized reply.
    When what the blob manager reported has no length (None, a bool, a
    number), the batch fails with a type error after the availability
    stage, and the strategy is not consulted. *)
Theorem availability_feeds_negotiation w (queries : Dict) (s : Sys) requested payload avail :
  queries !! query_identifier 2 = Some requested ->
  queries !! query_identifier 0 = Some payload ->
  queries !! query_identifier 1 = None ->
  completed_blobs w requested = Succeeded avail ->
  let offer := {| offered := payload |} in
  let reply := respond_to_offer w offer (peer (handler s)) avail in
  handle_queries w queries s =
  if has_len avail
  then
    (Succeeded (make_dict_from_offer w reply ∪ {["available_blobs" := avail]}),
     {| handler := (if accepted reply
                    then set_blob_data_payment_rate (Some (rate reply))
                           (set_blobs_requested requested (handler s))
                    else set_blobs_requested requested (handler s));
        log := log s ++ [EvCompletedBlobs requested;
                         EvRespondToOffer offer (peer (handler s)) avail] |})
  else
    (Failed (TypeError "object has no len()"),
     {| handler := set_blobs_requested requested (handler s);
        log := log s ++ [EvCompletedBlobs requested] |}).
Proof.
  intros H2 H0 H1 Havail. cbn zeta.
  unfold handle_queries, _reply_to_availability, _get_available_blobs.
  rewrite H2, H0, H1.
  unfold mbind, M_bind, bind, mret, M_ret, ret, modify_self, emit, await, get_self.
  cbn [fst snd handler log _blobs_requested set_blobs_requested].
  rewrite Havail, dict_update_empty, reply_to_offer_eq, dict_get_singleton.
  destruct (has_len avail); [|reflexivity].
  cbn [peer set_blobs_requested handler log]. now rewrite <- app_assoc.
Qed.

Lemma availability_feeds_negotiation_witness :
  log (handle_queries Scenario.world
         (<["requested_blobs" := VList [VStr "X"; VStr "Y"]]> Scenario.offer_query)
         Scenario.registered).2 =
  [EvCompletedBlobs (VList [VStr "X"; VStr "Y"]);
   EvRespondToOffer {| offered := VNum F64.half |} (Some Scenario.the_peer)
     (VList [VStr "X"])].
Proof.
  rewrite (availability_feeds_negotiation Scenario.world
                 (<["requested_blobs" := VList [VStr "X"; VStr "Y"]]> Scenario.offer_query)
                 Scenario.registered
                 (VList [VStr "X"; VStr "Y"]) (VNum F64.half) (VList [VStr "X"]));
    reflexivity.
Defined.





(** X7. The primary query identifier the factory announces is the key
    of the download stage: it is [query_identifiers[1]], and a batch that
    holds it alone is handled as the download request for its payload,
    starting from the empty response. *)
Theorem primary_identifier_requests_download w incoming (s : Sys) :
  BlobRequestHandlerFactory.get_primary_query_identifier = query_identifier 1 ∧
  handle_queries w {[BlobRequestHandlerFactory.get_primary_query_identifier := incoming]} s
  = _reply_to_send_request w ∅ incoming s.
Proof.
  split; [reflexivity|].
  unfold handle_queries, BlobRequestHandlerFactory.get_primary_query_identifier.
  rewrite lookup_singleton_eq, !lookup_singleton_ne by discriminate.
  reflexivity.
Qed.

(** X8. When the blob manager answers, [_reply_to_availability] puts its
    answer under [available_blobs], replacing what was there, and keeps
    every other field of the response; the blob manager is called once
    and the handler is not touched. *)
Theorem reply_to_availability_adds_one_field w (request : Dict) blobs avail (s : Sys) :
  completed_blobs w blobs = Succeeded avail ->
  ∃ response : Dict,
    _reply_to_availability w request blobs s =
    (Succeeded response,
     {| handler := handler s; log := log s ++ [EvCompletedBlobs blobs] |}) ∧
    response !! "available_blobs" = Some avail ∧
    ∀ k, k ≠ "available_blobs" -> response !! k = request !! k.
Proof.
  intros Havail. eexists. split; [|split].
  - unfold _reply_to_availability, _get_available_blobs. chain. now rewrite Havail.
  - unfold dict_update. now rewrite lookup_union_l', lookup_singleton_eq
      by (rewrite lookup_singleton_eq; eauto).
  - intros k Hk. unfold dict_update.
    rewrite lookup_union_r; [reflexivity|]. now apply lookup_singleton_ne.
Qed.

Lemma reply_to_availability_adds_one_field_witness :
  ∃ response : Dict,
    _reply_to_availability Scenario.world {["available_blobs" := VList []]}
      (VList [VStr "X"; VStr "Y"]) Scenario.registered =
    (Succeeded response,
     {| handler := handler Scenario.registered;
        log := log Scenario.registered ++ [EvCompletedBlobs (VList [VStr "X"; VStr "Y"])] |}) ∧
    response !! "available_blobs" = Some (VList [VStr "X"]) ∧
    ∀ k, k ≠ "available_blobs" ->
         response !! k = ({["available_blobs" := VList []]} : Dict) !! k.
Proof.
  apply (reply_to_availability_adds_one_field Scenario.world). reflexivity.
Defined.

(** ** Download servicing: what goes wrong, and what stays behind *)

(** X9. A blob that yields no handle leaves no trace in the handler:
    [open_blob_for_reading] answers [error = BLOB_UNAVAILABLE] over the
    given response and the handler is as before. A blob that is not
    validated is not even asked for a handle ([open_for_reading] is not
    called); a validated one is asked exactly once. *)
Theorem unavailable_blob_is_left_alone blob (response : Dict) (s : Sys) :
  acquired blob = None ->
  open_blob_for_reading blob response s =
  (Succeeded (<["error" := VStr "BLOB_UNAVAILABLE"]> response, blob),
   {| handler := handler s;
      log := if Blob.is_validated blob
             then log s ++ [EvOpenForReading blob None]
             else log s |}).
Proof.
  unfold acquired. intros Hnone. rewrite open_blob_for_reading_eq.
  destruct (Blob.is_validated blob).
  - now rewrite Hnone.
  - now destruct s.
Qed.

Lemma unavailable_blob_is_left_alone_witness :
  open_blob_for_reading Scenario.blob_u ∅ Scenario.negotiated =
  (Succeeded (<["error" := VStr "BLOB_UNAVAILABLE"]> ∅, Scenario.blob_u),
   {| handler := handler Scenario.negotiated; log := log Scenario.negotiated |}).
Proof.
  apply (unavailable_blob_is_left_alone Scenario.blob_u ∅ Scenario.negotiated).
  reflexivity.
Defined.

(** X10. When appending to the upload history fails, the download stage
    fails with that failure and no response is returned, but a session
    opened for the blob stays: the blob and its read handle remain set on
    the handler, with the handle open. *)
Theorem history_failure_keeps_session w (response : Dict) incoming (s : Sys)
    r blob p handle f :
  blob_data_payment_rate (handler s) = Some r ->
  get_blob w incoming = Succeeded blob ->
  peer (handler s) = Some p ->
  acquired blob = Some handle ->
  add_blob_to_upload_history w (Blob.str blob) (host p) r = Failed f ->
  let out := _reply_to_send_request w response incoming s in
  out.1 = Failed f ∧
  currently_uploading (handler out.2) = Some blob ∧
  read_handle (handler out.2) = Some handle ∧
  handle_trace (log out.2) = handle_trace (log s) ++ [Opened blob handle].
Proof.
  intros Hrate Hblob Hpeer Hacq Hhist. cbn zeta.
  rewrite (reply_to_send_request_serviced _ _ _ _ _ _ _ Hrate Hblob Hpeer), Hhist.
  unfold serviced_state. rewrite Hacq. cbn. repeat split.
  unfold acquired in Hacq. destruct (Blob.is_validated blob); [|discriminate].
  rewrite Hacq, !handle_trace_app. reflexivity.
Qed.

Lemma history_failure_keeps_session_witness :
  let out := _reply_to_send_request Outage.world_without_history ∅ (VStr "X")
               Scenario.negotiated in
  out.1 = Failed Outage.history_down ∧
  currently_uploading (handler out.2) = Some Scenario.blob_x ∧
  read_handle (handler out.2) = Some 7%nat ∧
  handle_trace (log out.2) =
    handle_trace (log Scenario.negotiated) ++ [Opened Scenario.blob_x 7%nat].
Proof.
  apply (history_failure_keeps_session Outage.world_without_history ∅ (VStr "X")
           Scenario.negotiated F64.half Scenario.blob_x Scenario.the_peer);
    reflexivity.
Defined.

(** X11. On a handler that has a rate but no registered peer, a download
    request fails on [self.peer.host] with an attribute error: the blob
    has been fetched and, if it could be served, opened and made the
    session, but the upload history is never called. *)
Theorem download_without_peer w (response : Dict) incoming (s : Sys) r blob :
  blob_data_payment_rate (handler s) = Some r ->
  get_blob w incoming = Succeeded blob ->
  peer (handler s) = None ->
  _reply_to_send_request w response incoming s =
  (Failed (AttributeError "host"),
   {| handler := match acquired blob with
                 | Some handle =>
                     set_read_handle (Some handle)
                       (set_currently_uploading (Some blob) (handler s))
                 | None => handler s
                 end;
      log := log s ++ [EvGetBlob incoming]
               ++ (if Blob.is_validated blob
                   then [EvOpenForReading blob (Blob.open_for_reading blob)] else []) |}).
Proof.
  intros Hrate Hblob Hpeer.
  unfold _reply_to_send_request, record_transaction, acquired. chain.
  rewrite Hrate, Hblob, open_blob_for_reading_eq.
  destruct (Blob.is_validated blob); [destruct (Blob.open_for_reading blob)|];
    chain; rewrite Hpeer; cbn; now rewrite <- ?app_assoc, ?app_nil_r.
Qed.

Lemma download_without_peer_witness :
  peer (handler Outage.unregistered) = None ∧
  _reply_to_send_request Scenario.world ∅ (VStr "X") Outage.unregistered =
  (Failed (AttributeError "host"),
   {| handler := set_read_handle (Some 7%nat)
                   (set_currently_uploading (Some Scenario.blob_x)
                      (handler Outage.unregistered));
      log := log Outage.unregistered
               ++ [EvGetBlob (VStr "X"); EvOpenForReading Scenario.blob_x (Some 7%nat)] |}).
Proof.
  split; [reflexivity|].
  apply (download_without_peer Scenario.world ∅ (VStr "X") Outage.unregistered
           F64.half Scenario.blob_x); reflexivity.
Defined.

(** ** Sending *)

Lemma bind_run {A B} (m : M A) (k : A -> M B) (s s' : Sys) a :
  m s = (Succeeded a, s') -> (m ≫= k) s = k a s'.
Proof. intros Hm. unfold mbind, M_bind, bind. now rewrite Hm. Qed.

Lemma count_bytes_eq data (s : Sys) p :
  peer (handler s) = Some p ->
  count_bytes data s =
  (Succeeded data,
   {| handler := set_blob_bytes_uploaded (blob_bytes_uploaded (handler s) + len data)
                   (handler s);
      log := log s ++ [EvUpdateStats "blob_bytes_uploaded" (len data)] |}).
Proof. intros Hpeer. unfold count_bytes. chain. now rewrite Hpeer. Qed.

Lemma total_len_nonneg chunks : 0 <= total_len chunks.
Proof.
  induction chunks as [|data rest IH]; [reflexivity|].
  change (0 <= len data + total_len rest). unfold len. lia.
Qed.

Lemma stream_eq chunks (s : Sys) p :
  peer (handler s) = Some p ->
  stream chunks s =
  (Succeeded tt,
   {| handler := set_blob_bytes_uploaded
                   (blob_bytes_uploaded (handler s) + total_len chunks) (handler s);
      log := log s ++ stats_events chunks |}).
Proof.
  revert s. induction chunks as [|data rest IH]; intros s Hpeer.
  - cbn. rewrite Z.add_0_r, app_nil_r. now destruct s as [[] ?].
  - cbn [stream]. rewrite (bind_run _ _ _ _ _ (count_bytes_eq data s p Hpeer)).
    rewrite IH by exact Hpeer. cbn. rewrite <- app_assoc.
    unfold set_blob_bytes_uploaded. cbn. now rewrite Z.add_assoc.
Qed.

Lemma start_transfer_eq (s : Sys) handle :
  read_handle (handler s) = Some handle ->
  start_transfer s =
  (Succeeded tt,
   {| handler := set_file_sender true (handler s);
      log := log s ++ [EvBeginFileTransfer handle] |}).
Proof. intros Hrh. unfold start_transfer. chain. now rewrite Hrh. Qed.

(** X12. With a peer registered, feeding a sequence of chunks through
    [count_bytes] adds the total number of bytes to the byte counter
    (which therefore never decreases while a transfer runs), reports each
    chunk's length to the peer statistics in order, and changes nothing
    else. *)
Theorem stream_counts_every_byte chunks (s : Sys) p :
  peer (handler s) = Some p ->
  let out := stream chunks s in
  out.1 = Succeeded tt ∧
  blob_bytes_uploaded (handler out.2) = blob_bytes_uploaded (handler s) + total_len chunks ∧
  blob_bytes_uploaded (handler s) <= blob_bytes_uploaded (handler out.2) ∧
  log out.2 = log s ++ stats_events chunks ∧
  set_blob_bytes_uploaded (blob_bytes_uploaded (handler s)) (handler out.2) = handler s.
Proof.
  intros Hpeer. cbn zeta. rewrite (stream_eq chunks s p Hpeer). cbn.
  pose proof (total_len_nonneg chunks). repeat split; [lia|].
  now destruct s as [[] ?].
Qed.

Lemma stream_counts_every_byte_witness :
  let out := stream [Scenario.chunk; Scenario.chunk] Scenario.uploading in
  blob_bytes_uploaded (handler out.2) = 6 ∧
  log out.2 = log Scenario.uploading
                ++ [EvUpdateStats "blob_bytes_uploaded" 3;
                    EvUpdateStats "blob_bytes_uploaded" 3].
Proof.
  destruct (stream_counts_every_byte [Scenario.chunk; Scenario.chunk] Scenario.uploading
              Scenario.the_peer eq_refl) as (_ & Hcount & _ & Hlog & _).
  cbn zeta. split; [exact Hcount | exact Hlog].
Defined.

(** X13. A transfer that runs to a successful end on a handler with a
    session, a peer and a rate, and that has counted at least one byte:
    [send_blob_if_requested] answers None; the file sender is started on
    the session's handle, every chunk is counted, the wallet is credited
    once with the binary64 value of [blob.length * 1.0 * rate / 2**20]
    (the length being small enough for a float), one uploaded blob is
    counted, the handle is closed, and the handler ends with no session,
    no file sender and a byte counter of 0. *)
Theorem complete_transfer chunks (s : Sys) blob handle p r amount :
  currently_uploading (handler s) = Some blob ->
  read_handle (handler s) = Some handle ->
  peer (handler s) = Some p ->
  blob_data_payment_rate (handler s) = Some r ->
  blob_bytes_uploaded (handler s) + total_len chunks ≠ 0 ->
  expected_payment blob r = Some amount ->
  send_blob_if_requested chunks (Succeeded tt) s =
  (Succeeded VNone,
   {| handler := mkHandler (Some p) (Some r) None None false 0
                   (_blobs_requested (handler s));
      log := log s ++ [EvBeginFileTransfer handle] ++ stats_events chunks
               ++ [EvAddExpectedPayment (Some p) amount;
                   EvUpdateStats "blobs_uploaded" 1;
                   EvCloseReadHandle blob (Some handle)] |}) ∧
  ∃ x, F64.of_int (Blob.length blob) = Some x ∧
       amount = F64.div (F64.mul (F64.mul x F64.one) r) F64.two_pow_20.
Proof.
  intros Hcu Hrh Hpeer Hrate Hn Hamount. split.
  - unfold send_blob_if_requested, send_file.
    rewrite (bind_run get_self _ s s (handler s) eq_refl), Hcu.
    rewrite (bind_run _ _ _ _ _ (start_transfer_eq s handle Hrh)).
    set (s1 := {| handler := set_file_sender true (handler s);
                  log := log s ++ [EvBeginFileTransfer handle] |}).
    rewrite (bind_run _ _ _ _ _ (stream_eq chunks s1 p Hpeer)).
    set (s2 := {| handler := set_blob_bytes_uploaded
                               (blob_bytes_uploaded (handler s1) + total_len chunks)
                               (handler s1);
                  log := log s1 ++ stats_events chunks |}).
    rewrite (bind_run _ _ _ _ _
               (transfer_finished_billed s2 r blob p amount Hn Hrate Hcu Hpeer Hamount)).
    subst s1 s2. cbn. rewrite Hrh.
    unfold set_file_sender, set_currently_uploading, set_read_handle,
      set_blob_bytes_uploaded. cbn.
    rewrite Hpeer, Hrate, <- !app_assoc. reflexivity.
  - unfold expected_payment in Hamount.
    destruct (F64.of_int (Blob.length blob)) as [x|]; [|discriminate].
    exists x. split; [reflexivity | congruence].
Qed.

Lemma complete_transfer_witness :
  expected_payment Scenario.blob_x F64.half = Some F64.half ∧
  send_blob_if_requested [Scenario.chunk] (Succeeded tt) Scenario.uploading =
  (Succeeded VNone,
   {| handler := mkHandler (Some Scenario.the_peer) (Some F64.half) None None false 0
                   (_blobs_requested (handler Scenario.uploading));
      log := log Scenario.uploading ++ [EvBeginFileTransfer 7%nat]
               ++ stats_events [Scenario.chunk]
               ++ [EvAddExpectedPayment (Some Scenario.the_peer) F64.half;
                   EvUpdateStats "blobs_uploaded" 1;
                   EvCloseReadHandle Scenario.blob_x (Some 7%nat)] |}).
Proof.
  assert (Hamount : expected_payment Scenario.blob_x F64.half = Some F64.half)
    by reflexivity.
  split; [exact Hamount|].
  apply (complete_transfer [Scenario.chunk] Scenario.uploading Scenario.blob_x 7%nat
           Scenario.the_peer F64.half F64.half);
    [reflexivity | reflexivity | reflexivity | reflexivity | discriminate | exact Hamount].
Defined.

Lemma set_expected_payment_unbilled (s : Sys) p :
  blob_bytes_uploaded (handler s) = 0 ->
  peer (handler s) = Some p ->
  set_expected_payment s =
  (Succeeded tt,
   {| handler := handler s; log := log s ++ [EvUpdateStats "blobs_uploaded" 1] |}).
Proof.
  intros Hzero Hpeer. unfold set_expected_payment. chain.
  rewrite bool_decide_false by (rewrite Hzero; intros Hne; now apply Hne).
  cbn. now rewrite Hpeer.
Qed.

(** X14. A transfer that delivers no byte, on a handler whose byte
    counter is 0: the blob is counted as uploaded and its handle is
    closed, but the wallet is not called; the session is cleared and the
    answer is None. *)
Theorem empty_transfer_is_not_billed (s : Sys) blob handle p :
  currently_uploading (handler s) = Some blob ->
  read_handle (handler s) = Some handle ->
  peer (handler s) = Some p ->
  blob_bytes_uploaded (handler s) = 0 ->
  send_blob_if_requested [] (Succeeded tt) s =
  (Succeeded VNone,
   {| handler := set_file_sender false
                   (set_currently_uploading None (set_read_handle None (handler s)));
      log := log s ++ [EvBeginFileTransfer handle;
                       EvUpdateStats "blobs_uploaded" 1;
                       EvCloseReadHandle blob (Some handle)] |}).
Proof.
  intros Hcu Hrh Hpeer Hzero. unfold send_blob_if_requested, send_file.
  rewrite (bind_run get_self _ s s (handler s) eq_refl), Hcu.
  rewrite (bind_run _ _ _ _ _ (start_transfer_eq s handle Hrh)).
  set (s1 := {| handler := set_file_sender true (handler s);
                log := log s ++ [EvBeginFileTransfer handle] |}).
  rewrite (bind_run (stream []) _ s1 s1 tt eq_refl).
  assert (Hend : transfer_finished (Succeeded tt) s1 =
                 set_not_uploading (Succeeded tt) (set_expected_payment s1).2).
  { unfold transfer_finished, add_both.
    assert (E : (await (Succeeded tt);; set_expected_payment) s1 = set_expected_payment s1)
      by reflexivity.
    rewrite E. now destruct (set_expected_payment s1). }
  rewrite (set_expected_payment_unbilled s1 p Hzero Hpeer), set_not_uploading_eq in Hend.
  cbn in Hend. rewrite Hcu, Hrh in Hend.
  rewrite (bind_run _ _ _ _ _ Hend). subst s1. cbn. now rewrite <- !app_assoc.
Qed.

Lemma empty_transfer_is_not_billed_witness :
  send_blob_if_requested [] (Succeeded tt) Scenario.uploading =
  (Succeeded VNone,
   {| handler := set_file_sender false
                   (set_currently_uploading None
                      (set_read_handle None (handler Scenario.uploading)));
      log := log Scenario.uploading
               ++ [EvBeginFileTransfer 7%nat;
                   EvUpdateStats "blobs_uploaded" 1;
                   EvCloseReadHandle Scenario.blob_x (Some 7%nat)] |}).
Proof.
  apply (empty_transfer_is_not_billed Scenario.uploading Scenario.blob_x 7%nat
           Scenario.the_peer); reflexivity.
Defined.

(** X15. The end of a transfer is never an error for the caller: however
    the file sender's Deferred fired, and also when the payment step
    itself raises, the callbacks of [_send_file] end in success, with no
    blob being uploaded and no file sender installed. *)
Theorem transfer_end_never_fails outcome (s : Sys) :
  let out := transfer_finished outcome s in
  out.1 = Succeeded tt ∧
  currently_uploading (handler out.2) = None ∧
  file_sender (handler out.2) = false.
Proof.
  cbn zeta. unfold transfer_finished, add_both.
  destruct ((await outcome;; set_expected_payment) s) as [r s1].
  rewrite set_not_uploading_eq.
  destruct (currently_uploading (handler s1)) eqn:Hcu; cbn; auto.
Qed.

(** X16. A cancellation and the end of the cancelled transfer release
    the handle once between them: when the transfer's Deferred fires after
    [cancel_send], whatever its outcome, no handle is closed again and the
    wallet is not credited; at most the uploaded-blobs statistic is
    bumped. The byte counter keeps the value it had at the cancellation
    and the session stays cleared. *)
Theorem cancelled_transfer_ends_quietly {E} (err : E) outcome (s : Sys) :
  let s1 := (cancel_send err s).2 in
  let s2 := (transfer_finished outcome s1).2 in
  (log s2 = log s1 ∨ log s2 = log s1 ++ [EvUpdateStats "blobs_uploaded" 1]) ∧
  blob_bytes_uploaded (handler s2) = blob_bytes_uploaded (handler s) ∧
  currently_uploading (handler s2) = None ∧
  read_handle (handler s2) = None.
Proof.
  cbn zeta. rewrite cancel_send_eq. cbn [snd].
  unfold transfer_finished, set_expected_payment, set_not_uploading.
  destruct s as [[p r rh cu fs n br] l]. chain.
  destruct outcome as [[]|f]; cbn; [|now auto].
  destruct (bool_decide (n ≠ 0)), r, p; cbn; auto.
Qed.

(** X17. The assertion of [start_transfer]: a handler that has a blob set
    for upload but no read handle raises an assertion error when polled;
    nothing is sent and the blob stays set, with a file sender left
    installed. *)
Theorem transfer_without_handle_asserts chunks outcome (s : Sys) blob :
  currently_uploading (handler s) = Some blob ->
  read_handle (handler s) = None ->
  send_blob_if_requested chunks outcome s =
  (Failed (AssertionError "self.read_handle was None when trying to start the transfer"),
   {| handler := set_file_sender true (handler s); log := log s |}).
Proof.
  intros Hcu Hrh. unfold send_blob_if_requested, send_file, start_transfer.
  chain. now rewrite Hcu, Hrh.
Qed.

Lemma transfer_without_handle_asserts_witness :
  send_blob_if_requested [Scenario.chunk] (Succeeded tt) Outage.handle_lost =
  (Failed (AssertionError "self.read_handle was None when trying to start the transfer"),
   {| handler := set_file_sender true (handler Outage.handle_lost);
      log := log Outage.handle_lost |}).
Proof.
  apply (transfer_without_handle_asserts [Scenario.chunk] (Succeeded tt)
           Outage.handle_lost Scenario.blob_x); reflexivity.
Defined.

(** ** What holds in every state a handler can reach *)

Lemma respects_weaken (R R' : relation Sys) {A} (m : M A) :
  (∀ s s', R s s' -> R' s s') -> respects R m -> respects R' m.
Proof. intros Hsub Hm s. apply Hsub, Hm. Qed.

Lemma preserves_frame (P : Sys -> Prop) (R : relation Sys) {A} (m : M A) :
  (∀ s s', P s -> R s s' -> P s') -> respects R m -> preserves P m.
Proof. intros HP Hm s Hs. exact (HP _ _ Hs (Hm s)). Qed.

Lemma consistent_same_handles (s s' : Sys) :
  session_consistent (handler s) -> same_handles s s' ->
  session_consistent (handler s').
Proof.
  unfold session_consistent, same_handles. intros Hs (Ecu & Erh & _).
  now rewrite Ecu, Erh.
Qed.

Lemma consistent_set_not_uploading {A} (reason : Deferred A) :
  preserves (fun s => session_consistent (handler s)) (set_not_uploading reason).
Proof.
  intros s Hs. rewrite set_not_uploading_eq. unfold session_consistent in *.
  destruct (currently_uploading (handler s)) eqn:Hcu; cbn; [easy|].
  now rewrite Hcu.
Qed.

Lemma consistent_transfer_finished outcome :
  preserves (fun s => session_consistent (handler s)) (transfer_finished outcome).
Proof.
  unfold transfer_finished. apply preserves_add_both.
  - apply (preserves_frame _ same_handles); [apply consistent_same_handles|].
    bind_rule; [now apply respects_await | intros _].
    apply handles_set_expected_payment.
  - intros r. apply consistent_set_not_uploading.
Qed.

Lemma consistent_send_blob_if_requested chunks outcome :
  preserves (fun s => session_consistent (handler s))
    (send_blob_if_requested chunks outcome).
Proof.
  pose proof consistent_same_handles as Hframe.
  unfold send_blob_if_requested.
  apply preserves_bind;
    [apply (preserves_frame _ same_handles _ Hframe); now apply respects_get_self|].
  intros self. destruct (currently_uploading self).
  - unfold send_file.
    apply preserves_bind;
      [apply (preserves_frame _ same_handles _ Hframe), handles_start_transfer | intros _].
    apply preserves_bind;
      [apply (preserves_frame _ same_handles _ Hframe), handles_stream | intros _].
    apply preserves_bind; [apply consistent_transfer_finished | intros _].
    apply (preserves_frame _ same_handles _ Hframe). now apply respects_ret.
  - apply (preserves_frame _ same_handles _ Hframe). now apply respects_ret.
Qed.

Lemma consistent_handle_queries w (queries : Dict) :
  preserves (fun s => session_consistent (handler s)) (handle_queries w queries).
Proof.
  intros s Hs. rewrite handle_queries_split.
  pose proof (handles_earlier_stages w queries s) as Hearlier.
  destruct (queries !! query_identifier 1) as [incoming|];
    [|now apply (consistent_same_handles s)].
  unfold mbind, M_bind, bind.
  destruct (earlier_stages w queries s) as [[r|f] s2]; cbn in *;
    [|now apply (consistent_same_handles s)].
  assert (Hs2 : session_consistent (handler s2)) by now apply (consistent_same_handles s).
  destruct (reply_to_send_request_handles w ∅ incoming s2)
    as [Hsame|(blob & handle & Ecu & Erh & _)].
  - now apply (consistent_same_handles s2).
  - unfold session_consistent. rewrite Ecu, Erh. easy.
Qed.

Lemma consistent_step op (s : Sys) :
  session_consistent (handler s) -> session_consistent (handler (step op s)).
Proof.
  intros Hs. destruct op; cbn [step].
  - apply (consistent_same_handles s); [exact Hs|].
    apply handles_modify. intros h. now split.
  - now apply consistent_handle_queries.
  - now apply consistent_send_blob_if_requested.
  - apply (consistent_same_handles s); [exact Hs | apply handles_start_transfer].
  - apply (consistent_same_handles s); [exact Hs | apply handles_count_bytes].
  - now apply consistent_transfer_finished.
  - rewrite cancel_send_eq. easy.
Qed.

Lemma consistent_run ops (s : Sys) :
  session_consistent (handler s) -> session_consistent (handler (run ops s)).
Proof.
  revert s. induction ops as [|op ops IH]; intros s Hs; [exact Hs|].
  rewrite run_cons. now apply IH, consistent_step.
Qed.

Lemma stream_failure chunks (s : Sys) f :
  (stream chunks s).1 = Failed f -> f = AttributeError "update_stats".
Proof.
  revert s. induction chunks as [|data rest IH]; intros s; [discriminate|].
  cbn [stream]. unfold mbind, M_bind, bind.
  destruct (count_bytes data s) as [[d|f'] s1] eqn:Hcount.
  - apply IH.
  - cbn. intros [= <-]. revert Hcount. unfold count_bytes. chain.
    destruct (peer (handler s)); [discriminate | now intros [= <- _]].
Qed.

Lemma transfer_finished_succeeds outcome (s : Sys) :
  (transfer_finished outcome s).1 = Succeeded tt.
Proof.
  unfold transfer_finished, add_both.
  destruct ((await outcome;; set_expected_payment) s) as [r s1].
  now rewrite set_not_uploading_eq.
Qed.

(** X18. In every state a new handler reaches, by whatever sequence of
    registrations, query batches, transfers and cancellations, the blob
    being uploaded and the read handle are set together or unset
    together. So the assertion of [start_transfer] holds whenever the
    handler is polled: [send_blob_if_requested] never fails with an
    assertion error. *)
Theorem session_fields_go_together ops chunks outcome msg :
  let s := run ops fresh in
  session_consistent (handler s) ∧
  (send_blob_if_requested chunks outcome s).1 ≠ Failed (AssertionError msg).
Proof.
  cbn zeta.
  assert (Hs : session_consistent (handler (run ops fresh)))
    by (apply consistent_run; easy).
  split; [exact Hs|]. set (s := run ops fresh) in *.
  unfold send_blob_if_requested.
  rewrite (bind_run get_self _ s s (handler s) eq_refl).
  destruct (currently_uploading (handler s)) as [blob|] eqn:Hcu; [|discriminate].
  destruct (read_handle (handler s)) as [handle|] eqn:Hrh;
    [|destruct Hs as [_ Hs]; now rewrite Hs in Hcu].
  unfold send_file. rewrite (bind_run _ _ _ _ _ (start_transfer_eq s handle Hrh)).
  unfold mbind, M_bind, bind.
  destruct (stream chunks _) as [[u|f] s2] eqn:Hstream.
  - pose proof (transfer_finished_succeeds outcome s2) as Hend.
    destruct (transfer_finished outcome s2) as [r s3]. cbn in Hend. now subst r.
  - apply (f_equal fst) in Hstream. cbn in Hstream.
    apply stream_failure in Hstream. now subst f.
Qed.

#[export] Instance counter_stays_nonneg_refl : Reflexive counter_stays_nonneg.
Proof. intros s Hs. exact Hs. Qed.

#[export] Instance counter_stays_nonneg_trans : Transitive counter_stays_nonneg.
Proof. unfold counter_stays_nonneg. intros s1 s2 s3 H12 H23 Hs. auto. Qed.

Lemma same_counter_nonneg (s s' : Sys) : same_counter s s' -> counter_stays_nonneg s s'.
Proof. unfold same_counter, counter_stays_nonneg. intros ->. auto. Qed.

Lemma counter_emit e : (fun _ : Event => True) e -> respects counter_stays_nonneg (emit e).
Proof. intros _ s. now apply same_counter_nonneg. Qed.

Lemma counter_modify f : keeps_counter f -> respects counter_stays_nonneg (modify_self f).
Proof. intros Hf s. apply same_counter_nonneg. apply Hf. Qed.

Lemma counter_count_bytes data : respects counter_stays_nonneg (count_bytes data).
Proof.
  intros s Hs. unfold count_bytes. chain.
  destruct (peer (handler s)); cbn; unfold len; lia.
Qed.

Lemma counter_stream chunks : respects counter_stays_nonneg (stream chunks).
Proof.
  induction chunks as [|data rest IH]; cbn [stream].
  - now apply respects_ret.
  - bind_rule; [apply counter_count_bytes | intros _; exact IH].
Qed.

Lemma counter_set_expected_payment : respects counter_stays_nonneg set_expected_payment.
Proof.
  intros s Hs. unfold set_expected_payment.
  destruct s as [[p r rh cu fs n br] l]. chain.
  destruct (bool_decide (n ≠ 0)), r as [r|], cu as [blob|], p; cbn; try lia;
    destruct (expected_payment blob r); cbn; lia.
Qed.

Lemma counter_set_not_uploading {A} (reason : Deferred A) :
  respects counter_stays_nonneg (set_not_uploading reason).
Proof.
  intros s. rewrite set_not_uploading_eq. apply same_counter_nonneg.
  now destruct (currently_uploading (handler s)).
Qed.

Lemma counter_transfer_finished outcome :
  respects counter_stays_nonneg (transfer_finished outcome).
Proof.
  unfold transfer_finished.
  refine (respects_add_both _ _ _ _ _); [|intros; apply counter_set_not_uploading].
  bind_rule; [now apply respects_await | intros _; apply counter_set_expected_payment].
Qed.

Lemma counter_send_blob_if_requested chunks outcome :
  respects counter_stays_nonneg (send_blob_if_requested chunks outcome).
Proof.
  unfold send_blob_if_requested.
  bind_rule; [now apply respects_get_self | intros self].
  destruct (currently_uploading self); [|now apply respects_ret].
  unfold send_file. bind_rule; [|intros _].
  { apply (respects_start_transfer counter_stays_nonneg (fun _ => True) keeps_counter
             counter_emit counter_modify); [auto | intros h; reflexivity]. }
  bind_rule; [apply counter_stream | intros _].
  bind_rule; [apply counter_transfer_finished | intros _].
  now apply respects_ret.
Qed.

Lemma counter_handle_queries w (queries : Dict) :
  respects counter_stays_nonneg (handle_queries w queries).
Proof.
  assert (Hearlier : respects counter_stays_nonneg (earlier_stages w queries)).
  { apply (respects_earlier_stages counter_stays_nonneg (fun _ => True) keeps_counter
             counter_emit counter_modify); [auto | intros v h; reflexivity |].
    right. intros offer request s. rewrite reply_to_offer_eq. cbn zeta.
    apply same_counter_nonneg. unfold same_counter.
    destruct (has_len _); [|reflexivity]. cbn. now destruct (accepted _). }
  rewrite handle_queries_split.
  destruct (queries !! query_identifier 1) as [incoming|]; [|exact Hearlier].
  bind_rule; [exact Hearlier | intros _].
  unfold _reply_to_send_request.
  bind_rule; [now apply respects_get_self | intros self].
  destruct (blob_data_payment_rate self); [|now apply respects_ret].
  bind_rule; [now apply counter_emit | intros _].
  bind_rule; [now apply respects_await | intros blob].
  bind_rule; [|intros rb].
  - intros s. rewrite open_blob_for_reading_eq. apply same_counter_nonneg.
    now destruct (Blob.is_validated blob); [destruct (Blob.open_for_reading blob)|].
  - now apply (respects_record_transaction counter_stays_nonneg (fun _ => True)
                 counter_emit).
Qed.

Lemma counter_step op : ∀ s, counter_stays_nonneg s (step op s).
Proof.
  destruct op; cbn [step].
  - apply counter_modify. intros h. reflexivity.
  - apply counter_handle_queries.
  - apply counter_send_blob_if_requested.
  - apply (respects_start_transfer counter_stays_nonneg (fun _ => True) keeps_counter
             counter_emit counter_modify); [auto | intros h; reflexivity].
  - apply counter_count_bytes.
  - apply counter_transfer_finished.
  - intros s. rewrite cancel_send_eq. now apply same_counter_nonneg.
Qed.

(** X19. The byte counter is never negative: it starts at 0, grows by
    the length of each chunk counted, is reset to 0 when a transfer is
    billed, and no other operation writes it. This holds after every
    sequence of operations on a new handler. *)
Theorem byte_counter_never_negative ops :
  0 <= blob_bytes_uploaded (handler (run ops fresh)).
Proof.
  assert (Hrun : ∀ s, counter_stays_nonneg s (run ops s)).
  { induction ops as [|op ops IH]; intros s; [reflexivity|].
    rewrite run_cons. etransitivity; [apply counter_step | apply IH]. }
  apply (Hrun fresh). reflexivity.
Qed.

Lemma opens_app t t' : opens (t ++ t') = (opens t + opens t')%nat.
Proof.
  induction t as [|[blob handle|blob handle] t IH]; cbn; [reflexivity| |exact IH].
  now rewrite IH.
Qed.

Lemma closes_app t t' : closes (t ++ t') = (closes t + closes t')%nat.
Proof.
  induction t as [|[blob handle|blob handle] t IH]; cbn; [reflexivity|exact IH|].
  now rewrite IH.
Qed.

#[export] Instance same_opens_refl : Reflexive same_opens.
Proof. intros s. reflexivity. Qed.

#[export] Instance same_opens_trans : Transitive same_opens.
Proof. unfold same_opens. intros s1 s2 s3 H12 H23. congruence. Qed.

Lemma same_handles_opens (s s' : Sys) : same_handles s s' -> same_opens s s'.
Proof. unfold same_opens. intros (_ & _ & ->). reflexivity. Qed.

Lemma opens_released (s s' : Sys) :
  log s' = match currently_uploading (handler s) with
           | Some blob => log s ++ [EvCloseReadHandle blob (read_handle (handler s))]
           | None => log s
           end ->
  same_opens s s'.
Proof.
  unfold same_opens. intros ->. destruct (currently_uploading (handler s)); [|reflexivity].
  rewrite handle_trace_app, opens_app. cbn. lia.
Qed.

Lemma opens_set_not_uploading {A} (reason : Deferred A) :
  respects same_opens (set_not_uploading reason).
Proof.
  intros s. rewrite set_not_uploading_eq. apply opens_released.
  now destruct (currently_uploading (handler s)).
Qed.

Lemma opens_transfer_finished outcome : respects same_opens (transfer_finished outcome).
Proof.
  unfold transfer_finished.
  refine (respects_add_both _ _ _ _ _); [|intros; apply opens_set_not_uploading].
  apply (respects_weaken same_handles); [apply same_handles_opens|].
  bind_rule; [now apply respects_await | intros _; apply handles_set_expected_payment].
Qed.

Lemma opens_send_blob_if_requested chunks outcome :
  respects same_opens (send_blob_if_requested chunks outcome).
Proof.
  unfold send_blob_if_requested.
  bind_rule; [now apply respects_get_self | intros self].
  destruct (currently_uploading self); [|now apply respects_ret].
  unfold send_file.
  bind_rule; [|intros _].
  { apply (respects_weaken same_handles); [apply same_handles_opens|].
    apply handles_start_transfer. }
  bind_rule; [|intros _].
  { apply (respects_weaken same_handles); [apply same_handles_opens|].
    apply handles_stream. }
  bind_rule; [apply opens_transfer_finished | intros _].
  now apply respects_ret.
Qed.

(** X20. Only a query batch that carries a download request opens a read
    handle: every other operation (registration, a batch without
    [requested_blob], sending, counting, the end of a transfer,
    cancellation) leaves the number of opened handles as it was. *)
Theorem only_download_requests_open_handles op (s : Sys) :
  requests_download op = false ->
  opens (handle_trace (log (step op s))) = opens (handle_trace (log s)).
Proof.
  intros Hno. change (same_opens s (step op s)). destruct op; cbn [step].
  - apply same_handles_opens, handles_modify. intros h. now split.
  - rewrite handle_queries_split. cbn in Hno.
    apply bool_decide_eq_false in Hno.
    destruct (queries !! query_identifier 1) as [incoming|] eqn:Hkey.
    + destruct Hno. exists incoming. exact Hkey.
    + apply same_handles_opens, handles_earlier_stages.
  - apply opens_send_blob_if_requested.
  - apply same_handles_opens, handles_start_transfer.
  - apply same_handles_opens, handles_count_bytes.
  - apply opens_transfer_finished.
  - apply opens_released. now rewrite cancel_send_eq.
Qed.

Lemma only_download_requests_open_handles_witness :
  opens (handle_trace (log (step (OpHandleQueries Scenario.world Scenario.offer_query)
                              Scenario.uploading)))
  = opens (handle_trace (log Scenario.uploading)).
Proof.
  apply (only_download_requests_open_handles
           (OpHandleQueries Scenario.world Scenario.offer_query) Scenario.uploading).
  reflexivity.
Defined.

(** X21. A query batch never closes a read handle, whichever keys it
    carries and however its stages end: the closes in the log are as many
    after [handle_queries] as before. A session that is replaced by a
    second download request is therefore not released by the batch. *)
Theorem query_batches_never_close_handles w (queries : Dict) (s : Sys) :
  closes (handle_trace (log (handle_queries w queries s).2))
  = closes (handle_trace (log s)).
Proof.
  rewrite handle_queries_split.
  destruct (handles_earlier_stages w queries s) as (_ & _ & Hearlier).
  destruct (queries !! query_identifier 1) as [incoming|]; [|now rewrite Hearlier].
  unfold mbind, M_bind, bind.
  destruct (earlier_stages w queries s) as [[r|f] s2]; cbn in *; [|now rewrite Hearlier].
  rewrite <- Hearlier.
  destruct (reply_to_send_request_handles w ∅ incoming s2)
    as [(_ & _ & ->)|(blob & handle & _ & _ & ->)]; [reflexivity|].
  rewrite closes_app. cbn. lia.
Qed.
